(** * checkstatus_quect.py: the modem connectivity watchdog

    A shallow embedding of [src/checkstatus_quect.py] and the properties of
    its specification.

    Conventions of the embedding.
    - The interpreter is CPython 3.11 on Linux with a UTF-8 locale: its
      UTF-8 decoder, its Unicode database (14.0) and its limit on the digits
      that [int] converts are the ones embedded here.
    - A Python [str] is a sequence of code points, [text := list N]; a
      [bytes] value is a sequence of bytes, [bytes := list ascii]. What a
      serial port sends is bytes; the code decodes it where it does.
    - A function that performs I/O is a value of [M A]: the events it emits,
      in order, and either its return value or the exception it raises.
    - Everything the outside world decides (what a serial port answers, which
      hosts resolve, how threads are scheduled, whether the diagnostics file
      can be written) is an explicit argument.
    - [log] and [time.sleep] are events that always succeed, and so is a
      shell command run without a timeout, unless it holds a NUL character;
      the exceptions modelled are those of the serial port, of the
      conversions, of name resolution, of ping, of the commands run with a
      timeout, of a command with a NUL, of the append to the diagnostics
      file, and of a call with a missing argument. *)

From Stdlib Require Import String Ascii DecimalString Bool Arith ZArith QArith Lia.
From Stdlib Require Import List Permutation.
Import ListNotations.

Local Open Scope char_scope.
Local Open Scope list_scope.
Local Open Scope nat_scope.

(* ================================================================== *)
(** * Part I: the program                                              *)
(* ================================================================== *)

(** ** Text and bytes *)

(** A Python [str] is a sequence of code points, a [bytes] value a sequence
    of bytes. *)
Definition char : Type := N.
Definition text : Type := list char.
Definition bytes : Type := list ascii.

Definition chr (a : ascii) : char := N_of_ascii a.

(** A [str] literal and a [bytes] literal. *)
Definition txt (s : string) : text := map chr (list_ascii_of_string s).
Definition btxt (s : string) : bytes := list_ascii_of_string s.

Definition text_eqb (a b : text) : bool :=
  if list_eq_dec N.eq_dec a b then true else false.

Definition bytes_eqb (a b : bytes) : bool :=
  if list_eq_dec ascii_dec a b then true else false.

(** [s.startswith(p)] *)
Fixpoint starts_with (p s : text) : bool :=
  match p, s with
  | [], _ => true
  | _ :: _, [] => false
  | a :: p', b :: s' => (a =? b)%N && starts_with p' s'
  end.

(** [p in s] for strings *)
Fixpoint contains (p s : text) : bool :=
  starts_with p s ||
  match s with
  | [] => false
  | _ :: s' => contains p s'
  end.

(** [p in s] for bytes *)
Fixpoint bytes_starts_with (p s : bytes) : bool :=
  match p, s with
  | [], _ => true
  | _ :: _, [] => false
  | a :: p', b :: s' => Ascii.eqb a b && bytes_starts_with p' s'
  end.

Fixpoint bytes_contains (p s : bytes) : bool :=
  bytes_starts_with p s ||
  match s with
  | [] => false
  | _ :: s' => bytes_contains p s'
  end.

(** The truth value of a string: [bool(s)]. *)
Definition nonempty (s : text) : bool :=
  match s with [] => false | _ :: _ => true end.

(** The characters that the code names. *)
Definition dquote : char := 34%N.
Definition comma : char := 44%N.
Definition minus : char := 45%N.
Definition plus : char := 43%N.
Definition dot : char := 46%N.
Definition CR : char := 13%N.
Definition LF : char := 10%N.

(** The same as bytes. *)
Definition CRb : ascii := ascii_of_nat 13.
Definition LFb : ascii := ascii_of_nat 10.
Definition dquote_b : ascii := ascii_of_nat 34.

(** A byte string between double quotes. *)
Definition quoted (s : bytes) : bytes := dquote_b :: s ++ [dquote_b].

(** ** The Unicode character classes

    The classes are those of the Unicode database of the interpreter; the
    tables below are those of Unicode 14.0, which CPython 3.11 carries. *)

(** The decimal digits (category Nd) come in runs of ten, zero to nine; the
    table lists the zero of every run. [\d] of [re], [int] and [float] go by
    this class. *)
Definition decimal_zeros : list N :=
  [48; 1632; 1776; 1984; 2406; 2534; 2662; 2790; 2918; 3046; 3174; 3302;
   3430; 3558; 3664; 3792; 3872; 4160; 4240; 6112; 6160; 6470; 6608; 6784;
   6800; 6992; 7088; 7232; 7248; 42528; 43216; 43264; 43472; 43504; 43600;
   44016; 65296; 66720; 68912; 69734; 69872; 69942; 70096; 70384; 70736;
   70864; 71248; 71360; 71472; 71904; 72016; 72784; 73040; 73120; 92768;
   92864; 93008; 120782; 120792; 120802; 120812; 120822; 123200; 123632;
   125264; 130032]%N.

(** The value of a decimal digit. *)
Definition digit_of (c : char) : option N :=
  match find (fun z => (z <=? c) && (c <? z + 10))%N decimal_zeros with
  | Some z => Some (c - z)%N
  | None => None
  end.

(** [\d] *)
Definition is_digit (c : char) : bool :=
  match digit_of c with
  | Some _ => true
  | None => false
  end.

(** [str.isspace], the class that [str.strip()] removes. *)
Definition is_space (c : char) : bool :=
  ((9 <=? c) && (c <=? 13) || (28 <=? c) && (c <=? 32)
   || (c =? 133) || (c =? 160) || (c =? 5760)
   || (8192 <=? c) && (c <=? 8202) || (c =? 8232) || (c =? 8233)
   || (c =? 8239) || (c =? 8287) || (c =? 12288))%N.

(** The line boundaries of [str.splitlines], CR LF apart: LF VT FF CR,
    FS GS RS, NEL, LINE SEPARATOR and PARAGRAPH SEPARATOR. *)
Definition is_linebreak (c : char) : bool :=
  ((10 <=? c) && (c <=? 13) || (28 <=? c) && (c <=? 30) || (c =? 133)
   || (c =? 8232) || (c =? 8233))%N.

Definition is_cr (c : char) : bool := (c =? CR)%N.
Definition is_lf (c : char) : bool := (c =? LF)%N.

(** [s.lstrip(chars)], [s.rstrip(chars)] and [s.strip(chars)], the set of
    characters given as a predicate. *)
Fixpoint lstrip (p : char -> bool) (s : text) : text :=
  match s with
  | c :: s' => if p c then lstrip p s' else s
  | [] => []
  end.

Definition rstrip (p : char -> bool) (s : text) : text :=
  rev (lstrip p (rev s)).

Definition strip_chars (p : char -> bool) (s : text) : text :=
  rstrip p (lstrip p s).

(** [s.strip()] *)
Definition strip (s : text) : text := strip_chars is_space s.

(** [s.strip(q)] for the one-character string [q] holding a double quote *)
Definition strip_quotes (s : text) : text :=
  strip_chars (fun c => (c =? dquote)%N) s.

(** [s.split(sep)] for a one-character [sep]: the fields between the
    separators, never an empty list *)
Fixpoint split_on (sep : char) (s : text) : list text :=
  match s with
  | [] => [[]]
  | c :: s' =>
      if (c =? sep)%N then [] :: split_on sep s'
      else match split_on sep s' with
           | f :: fs => (c :: f) :: fs
           | [] => [[c]]
           end
  end.

(** [s.splitlines()]: [cur] is the line being read, in reverse; CR LF is one
    boundary; a last line is produced only when it is not empty. *)
Fixpoint splitlines_from (cur : text) (s : text) : list text :=
  match s with
  | [] => match cur with [] => [] | _ => [rev cur] end
  | c :: s' =>
      if is_linebreak c then
        rev cur :: match s' with
                   | d :: s'' =>
                       if is_cr c && is_lf d then splitlines_from [] s''
                       else splitlines_from [] s'
                   | [] => []
                   end
      else splitlines_from (c :: cur) s'
  end.

Definition splitlines (s : text) : list text := splitlines_from [] s.

(** [sep.join(l)] *)
Fixpoint join (sep : text) (l : list text) : text :=
  match l with
  | [] => []
  | [a] => a
  | a :: l' => a ++ sep ++ join sep l'
  end.

(** ** Decoding

    [b.decode(errors='ignore')]: the UTF-8 decoder of CPython. A well-formed
    sequence of one to four bytes gives its code point (overlong forms,
    surrogates and values above U+10FFFF are not well formed). Where the
    bytes are not well formed the decoder reports the lead byte together
    with the continuation bytes that were still acceptable after it, and
    [ignore] drops just these and resumes at the next byte; a sequence cut
    short by the end of the input is dropped whole. *)

Definition is_continuation (b : N) : bool := ((128 <=? b) && (b <=? 191))%N.

(** The second byte after the lead byte [b0] of a three-byte and of a
    four-byte sequence. *)
Definition second_of_three (b0 b1 : N) : bool :=
  (is_continuation b1
   && (if b0 =? 224 then 160 <=? b1 else true)
   && (if b0 =? 237 then b1 <? 160 else true))%N.

Definition second_of_four (b0 b1 : N) : bool :=
  (is_continuation b1
   && (if b0 =? 240 then 144 <=? b1 else true)
   && (if b0 =? 244 then b1 <? 144 else true))%N.

Fixpoint decode_ignore (b : bytes) : text :=
  match b with
  | [] => []
  | a0 :: r0 =>
      let b0 := N_of_ascii a0 in
      if (b0 <? 128)%N then b0 :: decode_ignore r0
      else if ((b0 <? 194) || (244 <? b0))%N then decode_ignore r0
      else if (b0 <? 224)%N then
        match r0 with
        | [] => []
        | a1 :: r1 =>
            let b1 := N_of_ascii a1 in
            if is_continuation b1
            then ((b0 - 192) * 64 + (b1 - 128))%N :: decode_ignore r1
            else decode_ignore r0
        end
      else if (b0 <? 240)%N then
        match r0 with
        | [] => []
        | a1 :: r1 =>
            let b1 := N_of_ascii a1 in
            if second_of_three b0 b1 then
              match r1 with
              | [] => []
              | a2 :: r2 =>
                  let b2 := N_of_ascii a2 in
                  if is_continuation b2
                  then ((b0 - 224) * 4096 + (b1 - 128) * 64 + (b2 - 128))%N
                       :: decode_ignore r2
                  else decode_ignore r1
              end
            else decode_ignore r0
        end
      else
        match r0 with
        | [] => []
        | a1 :: r1 =>
            let b1 := N_of_ascii a1 in
            if second_of_four b0 b1 then
              match r1 with
              | [] => []
              | a2 :: r2 =>
                  let b2 := N_of_ascii a2 in
                  if is_continuation b2 then
                    match r2 with
                    | [] => []
                    | a3 :: r3 =>
                        let b3 := N_of_ascii a3 in
                        if is_continuation b3
                        then ((b0 - 240) * 262144 + (b1 - 128) * 4096
                              + (b2 - 128) * 64 + (b3 - 128))%N
                             :: decode_ignore r3
                        else decode_ignore r2
                    end
                  else decode_ignore r1
              end
            else decode_ignore r0
        end
  end.

(** ** The regular expression of [get_signal_strength]

    [re.findall(r'-?\d+\.?\d*', s)]: an optional minus sign, one or more
    digits, an optional dot, zero or more digits; the matches from left to
    right, none overlapping another. *)

(** The longest run of digits at the head of [s], and what follows it. *)
Fixpoint span_digits (s : text) : text * text :=
  match s with
  | c :: s' =>
      if is_digit c then let (d, r) := span_digits s' in (c :: d, r)
      else ([], s)
  | [] => ([], [])
  end.

(** An optional [c] at the head of [s]: what was taken, and the rest. *)
Definition take_optional (c : char) (s : text) : text * text :=
  match s with
  | x :: r => if (x =? c)%N then ([c], r) else ([], s)
  | [] => ([], s)
  end.

(** [\d+\.?\d*] at the head of [s]; every part is greedy. *)
Definition match_unsigned (s : text) : option text :=
  match span_digits s with
  | ([], _) => None
  | (d, s2) =>
      let (dt, s3) := take_optional dot s2 in
      Some (d ++ dt ++ fst (span_digits s3))
  end.

(** The match of the whole expression at the head of [s], if there is one.
    The sign is taken when it is there; when the rest then fails the engine
    retries without it. *)
Definition match_number (s : text) : option text :=
  match take_optional minus s with
  | (_ :: _, r) =>
      match match_unsigned r with
      | Some tok => Some (minus :: tok)
      | None => match_unsigned s
      end
  | ([], _) => match_unsigned s
  end.

(** [findall]: [skip] counts the characters of the last match that are
    still to be passed over. *)
Fixpoint findall_from (skip : nat) (s : text) : list text :=
  match s with
  | [] => []
  | _ :: s' =>
      match skip with
      | S k => findall_from k s'
      | O =>
          match match_number s with
          | Some tok => tok :: findall_from (length tok - 1) s'
          | None => findall_from 0 s'
          end
      end
  end.

Definition findall_numbers (s : text) : list text := findall_from 0 s.

(** ** Events, exceptions and the monad of effects *)

Inductive exn : Type :=
| SerialException     (* the port cannot be opened, written or read *)
| PortNotOpenError    (* an operation on a Serial object that was never opened *)
| ValueError
| TypeError
| TimeoutExpired
| GaiError            (* [socket.gaierror] *)
| OSError             (* a file cannot be opened or written *)
| OtherError.

Record SignalReport : Type :=
  { rsrp : Z; rsrq : Z; rssi : Z; sinr : Q }.

(** The messages given to [log], with the values they interpolate. *)
Inductive log_msg : Type :=
| LogSignalIncomplete (resp : text)
| LogSignalQuality (r : SignalReport)
| LogSignalUnexpected
| LogSignalError (e : exn)
| LogDetecting
| LogNoDevices
| LogDetected (port : text)
| LogNoResponsive
| LogDnsSuccess (host : text)
| LogDnsFailed (host : text)
| LogPingSuccess (host : text)
| LogPingFailed (host : text) (returncode : Z)
| LogPingException (host : text) (e : exn)
| LogRunningCheck
| LogCheckError (e : exn)
| LogCheckSuccess
| LogCheckFailed
| LogRestartSequence
| LogResettingUsb
| LogUsbTimedOut
| LogRestartingQuectel
| LogQuectelCompleted
| LogQuectelTimedOut
| LogRestartingVpn
| LogVpnCompleted
| LogVpnTimedOut
| LogEnterFailSafe
| LogStoppingServices
| LogSwitchingPid (at_port : option text)
| LogPortWriteError (e : exn)
| LogWaitingReenumerate
| LogRequestingDhcp (iface : text)
| LogQueryingDns
| LogRawResponse (resp : text)
| LogDnsQueryFailed (e : exn)
| LogApplyingCarrierDns (dns_servers : list text)
| LogFallbackDns
| LogRestartingOpenVpn
| LogBanner
| LogStarting
| LogSystemOnline
| LogConnectivityMissing
| LogRestoredAfterRestart
| LogRestoredWithFailSafe
| LogNoAtPort
| LogRebooting.

Inductive event : Type :=
| ELog (m : log_msg)                       (* [log(...)] *)
| ESleep (ms : N)                          (* [time.sleep], in milliseconds *)
| ESerialOpen (port : text)                (* [serial.Serial(port, ...)] *)
| ESerialWrite (port : text) (cmd : bytes) (* [ser.write(cmd)] *)
| ESerialClose (port : text)               (* leaving the [with] block *)
| ERun (cmd : text)                        (* a call [subprocess.run(cmd, shell=True)] *)
| EExec (argv : list text)                 (* [subprocess.run(argv)] *)
| EResolve (host : text)                   (* [socket.gethostbyname(host)] *)
| EAppend (path : text).                   (* lines appended to a file *)

Inductive result (A : Type) : Type :=
| Ok (a : A)
| Raise (e : exn).
Arguments Ok {A} a.
Arguments Raise {A} e.

Definition M (A : Type) : Type := (list event * result A)%type.

Definition ret {A} (a : A) : M A := ([], Ok a).
Definition raise {A} (e : exn) : M A := ([], Raise e).
Definition emit (e : event) : M unit := ([e], Ok tt).

Definition bind {A B} (m : M A) (k : A -> M B) : M B :=
  match m with
  | (t, Ok a) => let (t', r) := k a in (t ++ t', r)
  | (t, Raise e) => (t, Raise e)
  end.

Notation "x <- m ;; k" := (bind m (fun x => k))
  (at level 61, m at next level, right associativity).
Notation "m ;; k" := (bind m (fun _ => k))
  (at level 61, right associativity).

(** [try: m / except Exception as e: h e] *)
Definition try_except {A} (m : M A) (h : exn -> M A) : M A :=
  match m with
  | (t, Ok a) => (t, Ok a)
  | (t, Raise e) => let (t', r) := h e in (t ++ t', r)
  end.

(** [try: m / except subprocess.TimeoutExpired: h] *)
Definition try_except_timeout {A} (m : M A) (h : M A) : M A :=
  match m with
  | (t, Raise TimeoutExpired) => let (t', r) := h in (t ++ t', r)
  | _ => m
  end.

(** [m], then [c] whether [m] returned or raised: the exit of a [with]. *)
Definition finally {A} (m : M A) (c : M unit) : M A :=
  match m with
  | (t, r) => (t ++ fst c, r)
  end.

Definition log (m : log_msg) : M unit := emit (ELog m).
Definition sleep (ms : N) : M unit := emit (ESleep ms).

(** The events and the outcome of a run. *)
Definition trace {A} (m : M A) : list event := fst m.
Definition outcome {A} (m : M A) : result A := snd m.

(** ** The serial port *)

(** A port argument: a device path, or [None]. *)
Definition pyport : Type := option text.

(** What the device does during one [with serial.Serial(...) as ser] block. *)
Inductive serial_session : Type :=
| OpenFails              (* [serial.Serial(port, ...)] raises *)
| WriteFails             (* [ser.write] raises *)
| ReadFails              (* [ser.read] raises *)
| Replies (resp : bytes). (* the bytes that [ser.read] returns *)

(** [with serial.Serial(port, ...) as ser: body]. A [Serial] object made with
    the port [None] is not opened, neither by the constructor nor by the
    [with]; each of its operations raises. *)
Definition with_serial {A} (port : pyport) (io : serial_session) (body : M A)
  : M A :=
  match port with
  | None => body
  | Some p =>
      emit (ESerialOpen p) ;;
      match io with
      | OpenFails => raise SerialException
      | _ => finally body (emit (ESerialClose p))
      end
  end.

(** [ser.reset_input_buffer()] *)
Definition ser_reset (port : pyport) : M unit :=
  match port with
  | None => raise PortNotOpenError
  | Some _ => ret tt
  end.

(** [ser.write(cmd)] *)
Definition ser_write (port : pyport) (io : serial_session) (cmd : bytes)
  : M unit :=
  match port with
  | None => raise PortNotOpenError
  | Some p =>
      emit (ESerialWrite p cmd) ;;
      match io with
      | WriteFails => raise SerialException
      | _ => ret tt
      end
  end.

(** [ser.read(n)] *)
Definition ser_read (port : pyport) (io : serial_session) : M bytes :=
  match port with
  | None => raise PortNotOpenError
  | Some _ =>
      match io with
      | Replies resp => ret resp
      | _ => raise SerialException
      end
  end.

(** ** Signal strength *)

Definition split_sign (s : text) : bool * text :=
  match s with
  | c :: r =>
      if (c =? minus)%N then (true, r)
      else if (c =? plus)%N then (false, r)
      else (false, s)
  | [] => (false, s)
  end.

Definition digit_value (c : char) : Z :=
  match digit_of c with
  | Some d => Z.of_N d
  | None => 0%Z
  end.

Definition digits_val (ds : text) : Z :=
  fold_left (fun acc c => (10 * acc + digit_value c)%Z) ds 0%Z.

(** The longest decimal string that [int] converts
    ([sys.int_info.default_max_str_digits]). *)
Definition MAX_STR_DIGITS : nat := 4300.

Definition signed (neg : bool) (z : Z) : Z := if neg then (- z)%Z else z.

(** [int(s)] on a string of sign, digits and dots, as [findall] yields them:
    the integer of an optional sign and one or more digits, at most
    [MAX_STR_DIGITS] of them; [ValueError] for anything else. *)
Definition py_int (s : text) : M Z :=
  let (neg, ds) := split_sign s in
  if nonempty ds && forallb is_digit ds && (length ds <=? MAX_STR_DIGITS)
  then ret (signed neg (digits_val ds))
  else raise ValueError.

(** [float(s)] on such a string: the decimal number read, before it is
    rounded to a double. *)
Definition py_float (s : text) : M Q :=
  let (neg, body) := split_sign s in
  let (ip, r) := span_digits body in
  let (fp, ok) := match r with
                  | [] => ([], true)
                  | c :: f =>
                      if (c =? dot)%N then (f, forallb is_digit f)
                      else ([], false)
                  end in
  if ok && nonempty (ip ++ fp) then
    ret (Qmake (signed neg (digits_val (ip ++ fp)))
               (Z.to_pos (10 ^ Z.of_nat (length fp))))
  else raise ValueError.

Definition qeng_cmd : bytes :=
  btxt "AT+QENG=" ++ quoted (btxt "servingcell") ++ [CRb].

Definition qeng_marker : text := txt "+QENG:".

(** [numbers[-4:]] *)
Definition last_four (numbers : list text) : list text :=
  skipn (length numbers - 4) numbers.

Definition get_signal_strength (port : pyport) (io : serial_session)
  : M (option SignalReport) :=
  try_except
    (with_serial port io
       (ser_reset port ;;
        ser_write port io qeng_cmd ;;
        sleep 500%N ;;
        raw <- ser_read port io ;;
        let sig_resp := decode_ignore raw in
        if contains qeng_marker sig_resp then
          let numbers := findall_numbers sig_resp in
          if (length numbers <? 4)%nat then
            log (LogSignalIncomplete (strip sig_resp)) ;;
            ret None
          else
            match last_four numbers with
            | [a; b; c; d] =>
                rsrp <- py_int a ;;
                rsrq <- py_int b ;;
                rssi <- py_int c ;;
                sinr <- py_float d ;;
                log (LogSignalQuality
                       {| rsrp := rsrp; rsrq := rsrq; rssi := rssi;
                          sinr := sinr |}) ;;
                ret None
            | _ => raise ValueError
            end
        else
          log LogSignalUnexpected ;;
          ret None))
    (fun e => log (LogSignalError e) ;; ret None).

(** ** Quectel ports *)

(** An entry of [/dev/serial/by-id]: its name, and the device node that
    [os.path.realpath] resolves it to. *)
Record by_id_entry : Type :=
  { entry_name : text; entry_realpath : text }.

Definition quectel_marker : text := txt "usb-Quectel_EG25-G".

Fixpoint get_quectel_ports (entries : list by_id_entry) : list text :=
  match entries with
  | [] => []
  | e :: rest =>
      if contains quectel_marker (entry_name e)
      then entry_realpath e :: get_quectel_ports rest
      else get_quectel_ports rest
  end.

(** ** AT port detection

    [detect_at_port] starts one thread per candidate, each running
    [test_port], and polls [found_flag] from the main thread. The threads
    share [found_flag] and the one-element list [found_port]. The embedding
    is an interleaving semantics: a configuration holds the shared store and
    the program counter of every thread, and a schedule names the thread that
    takes the next step. A step is a stretch of code that reads or writes the
    shared store at most once. The threads are not joined: they may still
    take steps while the main thread goes on, and after it has returned.

    The value of [serial.tools.list_ports.comports()] is not used by the
    code and has no part here. The wait loop compares the clock with
    [timeout]; the world says how many of its iterations begin in time. *)

(** Where a thread running [test_port(port)] stands. *)
Inductive worker_pc : Type :=
| WStart     (* [if found_flag.is_set(): return] *)
| WProbe     (* open the port, write AT, read, look for OK *)
| WRecheck   (* [if not found_flag.is_set():] *)
| WSet       (* [found_flag.set()] *)
| WStore     (* [found_port[0] = port] *)
| WLog       (* [log(...)], then the exit of the [with] *)
| WDone.

Record worker : Type :=
  { w_port : text; w_pc : worker_pc }.

(** Where the main thread stands in [detect_at_port], after the candidates
    were found. *)
Inductive caller_pc : Type :=
| MSubmit (k : nat)  (* the [for] loop, [k] candidates submitted so far *)
| MPoll (n : nat)    (* the [while] loop; [n] more iterations begin before
                        [timeout] has elapsed *)
| MTest              (* [if found_port[0]:] *)
| MSettle            (* [time.sleep(0.2)] *)
| MSignal            (* [get_signal_strength(found_port[0])] *)
| MReturn            (* [return found_port[0]] *)
| MDone (r : pyport).

Record config : Type :=
  { found_flag : bool;        (* the [threading.Event] *)
    found_port : pyport;      (* [found_port[0]] *)
    stores : list text;       (* every value assigned to [found_port[0]],
                                 in order (not part of the program) *)
    workers : list worker;
    mpc : caller_pc;
    events : list event }.

(** What the world decides during one call of [detect_at_port]. *)
Record detect_env : Type :=
  { by_id : list by_id_entry;            (* the directory listing *)
    at_reply : text -> serial_session;   (* each port's answer to AT *)
    polls : nat;                         (* iterations of the wait loop that
                                            begin before the timeout *)
    schedule : list nat;                 (* the thread to step next: 0 is the
                                            main thread, [S i] the thread of
                                            candidate [i] *)
    signal_reply : pyport -> serial_session  (* the answer to the telemetry
                                                query of the winning port *) }.

Definition at_cmd : bytes := btxt "AT" ++ [CRb].

(** The truth value of a port: [None] and the empty string are false. *)
Definition truthy (p : pyport) : bool :=
  match p with
  | Some s => nonempty s
  | None => false
  end.

Definition add_events (c : config) (t : list event) : config :=
  {| found_flag := found_flag c; found_port := found_port c;
     stores := stores c; workers := workers c; mpc := mpc c;
     events := events c ++ t |}.

Definition set_flag (c : config) : config :=
  {| found_flag := true; found_port := found_port c;
     stores := stores c; workers := workers c; mpc := mpc c;
     events := events c |}.

Definition store_port (c : config) (port : text) : config :=
  {| found_flag := found_flag c; found_port := Some port;
     stores := stores c ++ [port]; workers := workers c; mpc := mpc c;
     events := events c |}.

Definition set_mpc (c : config) (pc : caller_pc) : config :=
  {| found_flag := found_flag c; found_port := found_port c;
     stores := stores c; workers := workers c; mpc := pc;
     events := events c |}.

Definition set_workers (c : config) (ws : list worker) : config :=
  {| found_flag := found_flag c; found_port := found_port c;
     stores := stores c; workers := ws; mpc := mpc c;
     events := events c |}.

Fixpoint set_nth {A} (i : nat) (a : A) (l : list A) : list A :=
  match l, i with
  | [], _ => []
  | _ :: l', O => a :: l'
  | b :: l', S j => b :: set_nth j a l'
  end.

(** The body of the [with] of [test_port] up to its first test: the write,
    the read and [b"OK" in resp]. *)
Definition at_probe (port : text) (io : serial_session) : M bool :=
  ser_write (Some port) io at_cmd ;;
  resp <- ser_read (Some port) io ;;
  ret (bytes_contains (btxt "OK") resp).

(** One step of a thread that runs [test_port(port)] and stands at [pc]: the
    configuration and the program counter after it. An exception leaves the
    [with], which closes the port, and ends the thread in
    [except Exception: return]. *)
Definition test_port (env : detect_env) (port : text) (pc : worker_pc)
  (c : config) : config * worker_pc :=
  match pc with
  | WStart => if found_flag c then (c, WDone) else (c, WProbe)
  | WProbe =>
      match at_reply env port with
      | OpenFails => (add_events c [ESerialOpen port], WDone)
      | io =>
          match at_probe port io with
          | (t, Ok true) => (add_events c (ESerialOpen port :: t), WRecheck)
          | (t, _) =>
              (add_events c (ESerialOpen port :: t ++ [ESerialClose port]),
               WDone)
          end
      end
  | WRecheck =>
      if found_flag c then (add_events c [ESerialClose port], WDone)
      else (c, WSet)
  | WSet => (set_flag c, WStore)
  | WStore => (store_port c port, WLog)
  | WLog =>
      (add_events c [ELog (LogDetected port); ESerialClose port], WDone)
  | WDone => (c, WDone)
  end.

(** One step of the main thread. The call of [get_signal_strength] is one
    step: it reads the slot once, for its argument. *)
Definition caller_step (env : detect_env) (candidates : list text) (c : config)
  : config :=
  match mpc c with
  | MSubmit k =>
      match nth_error candidates k with
      | Some p =>
          set_mpc
            (set_workers c (workers c ++ [{| w_port := p; w_pc := WStart |}]))
            (MSubmit (S k))
      | None => set_mpc c (MPoll (polls env))
      end
  | MPoll n =>
      if found_flag c then set_mpc c MTest
      else match n with
           | O => set_mpc c MTest
           | S n' => set_mpc (add_events c [ESleep 100%N]) (MPoll n')
           end
  | MTest =>
      if truthy (found_port c) then set_mpc c MSettle
      else set_mpc (add_events c [ELog LogNoResponsive]) (MDone None)
  | MSettle => set_mpc (add_events c [ESleep 200%N]) MSignal
  | MSignal =>
      set_mpc
        (add_events c
           (trace (get_signal_strength (found_port c)
                     (signal_reply env (found_port c)))))
        MReturn
  | MReturn => set_mpc c (MDone (found_port c))
  | MDone _ => c
  end.

(** The step of thread [tid]; a thread that does not exist yet does nothing. *)
Definition step (env : detect_env) (candidates : list text) (tid : nat)
  (c : config) : config :=
  match tid with
  | O => caller_step env candidates c
  | S i =>
      match nth_error (workers c) i with
      | Some w =>
          let (c', pc') := test_port env (w_port w) (w_pc w) c in
          set_workers c'
            (set_nth i {| w_port := w_port w; w_pc := pc' |} (workers c'))
      | None => c
      end
  end.

(** All the steps of a schedule, also those that the threads left behind take
    after the main thread has returned. *)
Definition exec (env : detect_env) (candidates : list text)
  (sched : list nat) (c : config) : config :=
  fold_left (fun c tid => step env candidates tid c) sched c.

Definition caller_done (c : config) : bool :=
  match mpc c with
  | MDone _ => true
  | _ => false
  end.

(** A bound on the steps that the main thread still has to take. *)
Definition caller_budget (env : detect_env) (candidates : list text)
  (c : config) : nat :=
  match mpc c with
  | MSubmit k => (length candidates - k) + polls env + 7
  | MPoll n => n + 5
  | MTest => 4
  | MSettle => 3
  | MSignal => 2
  | MReturn => 1
  | MDone _ => 0
  end.

Fixpoint run_caller (env : detect_env) (candidates : list text) (fuel : nat)
  (c : config) : config :=
  match fuel with
  | O => c
  | S f => run_caller env candidates f (caller_step env candidates c)
  end.

(** The run of [detect_at_port] up to its [return]: the threads step as the
    schedule says; when the schedule is used up the main thread runs on its
    own. *)
Fixpoint run_until_return (env : detect_env) (candidates : list text)
  (sched : list nat) (c : config) : config :=
  match sched with
  | [] => run_caller env candidates (caller_budget env candidates c) c
  | tid :: rest =>
      if caller_done c then c
      else run_until_return env candidates rest (step env candidates tid c)
  end.

Definition init_config : config :=
  {| found_flag := false; found_port := None; stores := []; workers := [];
     mpc := MSubmit 0; events := [] |}.

Definition returned (c : config) : pyport :=
  match mpc c with
  | MDone r => r
  | _ => None
  end.

Definition detect_at_port (env : detect_env) : M pyport :=
  log LogDetecting ;;
  let candidates := get_quectel_ports (by_id env) in
  match candidates with
  | [] =>
      log LogNoDevices ;;
      ret None
  | _ :: _ =>
      let c := run_until_return env candidates (schedule env) init_config in
      (events c, Ok (returned c))
  end.

(** ** Connectivity check *)

Definition PING_COUNT : nat := 5.
Definition PING_TIMEOUT : nat := 2.

Definition DNS_HOSTS : list text :=
  [txt "google.com"; txt "mqtts.sibcaconnect.com";
   txt "commander.omniconn.ai"].

Definition PING_HOSTS : list text := [txt "8.8.8.8"; txt "1.1.1.1"].

Definition IFACE_WWAN : text := txt "wwan0".
Definition IFACE_RNDIS : text := txt "usb0".
Definition IFACE_VPN : text := txt "tun0".
Definition NETDIAG_FILE : text := txt "/home/ubuntu/netdiag.log".

(** [str(n)] *)
Definition str_nat (n : nat) : text :=
  txt (NilEmpty.string_of_uint (Nat.to_uint n)).

(** What name resolution does for a host. *)
Inductive dns_answer : Type :=
| Resolves
| NoSuchName                  (* raises [socket.gaierror] *)
| ResolverError (e : exn).    (* raises something else *)

(** What running ping does for a host. *)
Inductive ping_answer : Type :=
| PingExit (returncode : Z)
| PingRaises (e : exn).       (* [subprocess.run] itself raises *)

Definition gethostbyname (host : text) (a : dns_answer) : M unit :=
  emit (EResolve host) ;;
  match a with
  | Resolves => ret tt
  | NoSuchName => raise GaiError
  | ResolverError e => raise e
  end.

(** [try: m / except socket.gaierror: h] *)
Definition try_except_gaierror {A} (m : M A) (h : M A) : M A :=
  match m with
  | (t, Raise GaiError) => let (t', r) := h in (t ++ t', r)
  | _ => m
  end.

Definition check_dns_host (host : text) (a : dns_answer) : M bool :=
  try_except_gaierror
    (gethostbyname host a ;;
     log (LogDnsSuccess host) ;;
     ret true)
    (log (LogDnsFailed host) ;;
     ret false).

Definition run_ping (host : text) (a : ping_answer) : M Z :=
  emit (EExec [txt "ping"; txt "-c"; str_nat PING_COUNT; txt "-W";
               str_nat PING_TIMEOUT; host]) ;;
  match a with
  | PingExit rc => ret rc
  | PingRaises e => raise e
  end.

Definition check_ping_host (host : text) (a : ping_answer) : M bool :=
  try_except
    (returncode <- run_ping host a ;;
     if (returncode =? 0)%Z then
       log (LogPingSuccess host) ;;
       ret true
     else
       log (LogPingFailed host returncode) ;;
       ret false)
    (fun e => log (LogPingException host e) ;; ret false).

Inductive check_type : Type := Dns | Ping.

Definition is_dns (k : check_type) : bool :=
  match k with Dns => true | Ping => false end.
Definition is_ping (k : check_type) : bool :=
  match k with Dns => false | Ping => true end.

(** A submitted task: its tag in the [futures] dictionary, and the run of the
    check it wraps. *)
Definition future : Type := (check_type * M bool)%type.

(** What the world decides during one call of
    [check_connectivity_parallel]. *)
Record check_env : Type :=
  { dns_of : text -> dns_answer;
    ping_of : text -> ping_answer;
    finish_time : nat -> nat  (* when the [i]-th submitted task completes *) }.

(** The [futures] dictionary, in the order of submission. *)
Definition submitted (env : check_env) : list future :=
  map (fun h => (Dns, check_dns_host h (dns_of env h))) DNS_HOSTS
  ++ map (fun h => (Ping, check_ping_host h (ping_of env h))) PING_HOSTS.

Fixpoint insert_by_time {A} (x : nat * A) (l : list (nat * A))
  : list (nat * A) :=
  match l with
  | [] => [x]
  | y :: l' =>
      if fst x <? fst y then x :: l else y :: insert_by_time x l'
  end.

(** [as_completed(futures)]: every future once, the earliest to complete
    first. *)
Definition as_completed {A} (finish : nat -> nat) (fs : list A) : list A :=
  map snd
    (fold_right insert_by_time []
       (combine (map finish (seq 0 (length fs))) fs)).

Fixpoint emit_all (t : list event) : M unit :=
  match t with
  | [] => ret tt
  | e :: t' => emit e ;; emit_all t'
  end.

(** The [for future in as_completed(futures)] loop. [Some v] is a [return v]
    from inside the loop, [None] the end of the loop. A task's events stand
    where the loop takes the task up. The [return] leaves the [with] block of
    the executor, which waits for the tasks that still run. *)
Fixpoint check_loop (dns_ok ping_ok : bool) (completed : list future)
  : M (option bool) :=
  match completed with
  | [] => ret None
  | (check_type, (t, outcome)) :: rest =>
      emit_all t ;;
      match outcome with
      | Raise e =>
          log (LogCheckError e) ;;
          check_loop dns_ok ping_ok rest
      | Ok result =>
          let dns_ok := if is_dns check_type && result then true else dns_ok in
          let ping_ok :=
            if is_ping check_type && result then true else ping_ok in
          if dns_ok && ping_ok then
            log LogCheckSuccess ;;
            emit_all (flat_map (fun f => fst (snd f)) rest) ;;
            ret (Some true)
          else check_loop dns_ok ping_ok rest
      end
  end.

Definition check_connectivity_parallel (env : check_env) : M bool :=
  log LogRunningCheck ;;
  r <- check_loop false false
         (as_completed (finish_time env) (submitted env)) ;;
  match r with
  | Some v => ret v
  | None =>
      log LogCheckFailed ;;
      ret false
  end.

(** ** Network diagnostics *)

(** A string with a NUL character cannot be passed to the operating
    system. *)
Definition has_nul (s : text) : bool := existsb (N.eqb 0) s.

(** [subprocess.run(cmd, shell=True)]: a command that holds a NUL character
    is refused with [ValueError] before a shell is started. *)
Definition run (cmd : text) : M unit :=
  emit (ERun cmd) ;;
  if has_nul cmd then raise ValueError else ret tt.

(** [subprocess.run(cmd, shell=True, timeout=...)] *)
Definition run_with_timeout (cmd : text) (timed_out : bool) : M unit :=
  emit (ERun cmd) ;;
  if timed_out then raise TimeoutExpired else ret tt.

(** [log_cmd]: the command is run inside a [try], its output or its failure
    becomes a line; nothing is raised. *)
Definition log_cmd (cmd : text) : M unit :=
  try_except (run cmd) (fun _ => ret tt).

(** What the world decides during one call of [netdiag_log]: the output of
    the gateway lookup, [None] when [subprocess.check_output] raises, and
    whether [NETDIAG_FILE] can be opened and written. *)
Record netdiag_env : Type :=
  { gateway_output : option text;
    append_fails : bool }.

(** The lines collected are appended to [NETDIAG_FILE] at the end, outside
    every [try]: an [OSError] there leaves the function. *)
Definition netdiag_log (interface : text) (env : netdiag_env) : M unit :=
  emit (ERun (txt "ip addr show " ++ interface
              ++ txt " | grep peer | awk '{print $4}' | cut -d/ -f1")) ;;
  let gateway_ip :=
    match gateway_output env with
    | Some out => strip out
    | None => txt "Not found"
    end in
  log_cmd (txt "ip route show") ;;
  log_cmd (txt "ip a") ;;
  log_cmd (txt "ip link show " ++ interface) ;;
  log_cmd (txt "ip link show " ++ IFACE_VPN
           ++ txt " 2>/dev/null || echo 'tun0 not found'") ;;
  log_cmd (txt "lsusb -t") ;;
  (if negb (text_eqb gateway_ip (txt "Not found")) && nonempty gateway_ip
   then log_cmd (txt "ping -I " ++ interface ++ txt " -c 2 -W 2 "
                 ++ gateway_ip)
   else ret tt) ;;
  log_cmd (txt "ping -I " ++ interface ++ txt " -c 2 -W 2 8.8.8.8") ;;
  if append_fails env then raise OSError
  else emit (EAppend NETDIAG_FILE).

(** A call of [netdiag_log] with the positional arguments [args]: the
    function has one parameter and no default for it. *)
Definition call_netdiag_log (args : list text) (env : netdiag_env)
  : M unit :=
  match args with
  | [interface] => netdiag_log interface env
  | _ => raise TypeError
  end.

(** ** Restart connection *)

Record restart_env : Type :=
  { usb_times_out : bool; quectel_times_out : bool; vpn_times_out : bool }.

Definition restart_connection (env : restart_env) : M unit :=
  log LogRestartSequence ;;
  log LogResettingUsb ;;
  try_except_timeout
    (run_with_timeout (txt "sudo usb_modeswitch -R -v 2c7c -p 0125")
       (usb_times_out env) ;;
     sleep 4000%N)
    (log LogUsbTimedOut) ;;
  log LogRestartingQuectel ;;
  try_except_timeout
    (run_with_timeout (txt "sudo systemctl restart quectel_connect.service")
       (quectel_times_out env) ;;
     log LogQuectelCompleted)
    (log LogQuectelTimedOut) ;;
  sleep 5000%N ;;
  log LogRestartingVpn ;;
  try_except_timeout
    (run_with_timeout (txt "sudo systemctl restart openvpn@client.service")
       (vpn_times_out env) ;;
     log LogVpnCompleted)
    (log LogVpnTimedOut) ;;
  sleep 5000%N.

(** ** Fail-safe *)

Definition usbnet_cmd : bytes :=
  btxt "at+QCFG=" ++ quoted (btxt "usbnet") ++ btxt ",3" ++ [CRb].

Definition cgcontrdp_cmd : bytes := btxt "AT+CGCONTRDP=1" ++ [CRb].

Definition cgcontrdp_marker : text := txt "+CGCONTRDP:".

(** [[p.strip().strip(q) for p in line.split(",")]], [q] the double quote *)
Definition parts_of (line : text) : list text :=
  map (fun p => strip_quotes (strip p)) (split_on comma line).

(** The [for line in response.splitlines()] loop: the value of
    [dns_servers] when the loop is left. *)
Fixpoint scan_lines (lines : list text) : list text :=
  match lines with
  | [] => []
  | line :: rest =>
      if contains cgcontrdp_marker line then
        let parts := parts_of line in
        if 2 <=? length parts then
          let dns1 := nth (length parts - 2) parts [] in
          let dns2 := nth (length parts - 1) parts [] in
          if nonempty dns1 && nonempty dns2 then [dns1; dns2]
          else scan_lines rest
        else scan_lines rest
      else scan_lines rest
  end.

(** The [try] block of the DNS query: the value of [dns_servers] after it. *)
Definition query_carrier_dns (at_port_dns : pyport) (io : serial_session)
  : M (list text) :=
  try_except
    (with_serial at_port_dns io
       (ser_write at_port_dns io cgcontrdp_cmd ;;
        sleep 1000%N ;;
        raw <- ser_read at_port_dns io ;;
        let response := decode_ignore raw in
        log (LogRawResponse (strip response)) ;;
        ret (scan_lines (splitlines response))))
    (fun e => log (LogDnsQueryFailed e) ;; ret []).

Definition fallback_resolv_conf : text :=
  txt "nameserver 8.8.8.8" ++ [LF] ++ txt "nameserver 8.8.4.4" ++ [LF].

(** The [if dns_servers:] statement: the text of [resolv_conf]. *)
Definition choose_resolv_conf (dns_servers : list text) : M text :=
  match dns_servers with
  | _ :: _ =>
      log (LogApplyingCarrierDns dns_servers) ;;
      ret (join [LF] (map (fun dns => txt "nameserver " ++ dns) dns_servers)
           ++ [LF])
  | [] =>
      log LogFallbackDns ;;
      ret fallback_resolv_conf
  end.

Definition tee_cmd (resolv_conf : text) : text :=
  txt "echo -e '" ++ resolv_conf ++ txt "' | sudo tee /etc/resolv.conf".

Record failsafe_env : Type :=
  { fs_switch : serial_session;   (* the session of the profile switch *)
    fs_detect : detect_env;       (* the detection after re-enumeration *)
    fs_query : serial_session;    (* the session of the DNS query *)
    fs_gateway : netdiag_env }.

Definition fail_safe (at_port : pyport) (env : failsafe_env) : M unit :=
  log LogEnterFailSafe ;;
  log LogStoppingServices ;;
  run (txt "sudo systemctl stop quectel_connect.service") ;;
  run (txt "sudo systemctl stop openvpn@client.service") ;;
  sleep 2000%N ;;
  log (LogSwitchingPid at_port) ;;
  try_except
    (with_serial at_port (fs_switch env)
       (ser_write at_port (fs_switch env) usbnet_cmd ;;
        sleep 500%N))
    (fun e => log (LogPortWriteError e)) ;;
  log LogWaitingReenumerate ;;
  sleep 20000%N ;;
  log (LogRequestingDhcp IFACE_RNDIS) ;;
  run (txt "sudo pkill -f 'dhclient -v " ++ IFACE_RNDIS
       ++ txt "' 2>/dev/null") ;;
  run (txt "sudo dhclient " ++ IFACE_RNDIS ++ txt " -q") ;;
  sleep 10000%N ;;
  log LogQueryingDns ;;
  at_port_dns <- detect_at_port (fs_detect env) ;;
  dns_servers <- query_carrier_dns at_port_dns (fs_query env) ;;
  resolv_conf <- choose_resolv_conf dns_servers ;;
  run (tee_cmd resolv_conf) ;;
  call_netdiag_log [] (fs_gateway env) ;;
  log LogRestartingOpenVpn ;;
  run (txt "sudo systemctl start openvpn@client.service").

(** ** Main watchdog *)

(** What the world decides during one run of [main], call by call. *)
Record world : Type :=
  { w_detect0 : detect_env;     (* [detect_at_port()] at the top *)
    w_check0 : check_env;       (* the first connectivity check *)
    w_gateway0 : netdiag_env;   (* [netdiag_log("wwan0")] *)
    w_restart : restart_env;
    w_check1 : check_env;       (* the check after the restart *)
    w_detect1 : detect_env;     (* [detect_at_port()] of the fail-safe tier *)
    w_failsafe : failsafe_env;
    w_check2 : check_env;       (* the check after the fail-safe *)
    w_gateway1 : netdiag_env    (* [netdiag_log("usb0")] *) }.

(** Phase 2 of [main]: [true] when it ends in [return], [false] when control
    goes on to phase 3. *)
Definition failsafe_tier (w : world) : M bool :=
  at_port_failsafe <- detect_at_port (w_detect1 w) ;;
  if truthy at_port_failsafe then
    fail_safe at_port_failsafe (w_failsafe w) ;;
    restored <- check_connectivity_parallel (w_check2 w) ;;
    if restored then
      log LogRestoredWithFailSafe ;;
      ret true
    else ret false
  else
    call_netdiag_log [txt "usb0"] (w_gateway1 w) ;;
    log LogNoAtPort ;;
    ret false.

(** [main] after the statement [at_port = detect_at_port()] at its top,
    [at_port] being the value assigned there. *)
Definition main_after_detect (at_port : pyport) (w : world) : M unit :=
  online <- check_connectivity_parallel (w_check0 w) ;;
  if online then log LogSystemOnline
  else
    log LogConnectivityMissing ;;
    call_netdiag_log [txt "wwan0"] (w_gateway0 w) ;;
    restart_connection (w_restart w) ;;
    restored <- check_connectivity_parallel (w_check1 w) ;;
    if restored then log LogRestoredAfterRestart
    else
      returned <- failsafe_tier w ;;
      if returned then ret tt
      else log LogRebooting.

Definition main (w : world) : M unit :=
  log LogBanner ;;
  log LogStarting ;;
  at_port <- detect_at_port (w_detect0 w) ;;
  main_after_detect at_port w.

(** ** Observations

    What the properties below read off a run. *)

(** The messages logged, in order. *)
Fixpoint logs (t : list event) : list log_msg :=
  match t with
  | [] => []
  | ELog m :: t' => m :: logs t'
  | _ :: t' => logs t'
  end.

(** The value [int(tok)] returns, when it returns. *)
Definition int_value (tok : text) : Z :=
  match outcome (py_int tok) with
  | Ok z => z
  | Raise _ => 0%Z
  end.

(** The value [float(tok)] returns, when it returns. *)
Definition float_value (tok : text) : Q :=
  match outcome (py_float tok) with
  | Ok q => q
  | Raise _ => 0%Q
  end.

(** No dot in the token. *)
Definition dotfree (tok : text) : bool := negb (existsb (N.eqb dot) tok).

(** The [i]-th token from the end, [1] for the last one. *)
Definition from_end (numbers : list text) (i : nat) : text :=
  nth (length numbers - i) numbers [].

(** The report made of the last four tokens. *)
Definition report_of (numbers : list text) : SignalReport :=
  {| rsrp := int_value (from_end numbers 4);
     rsrq := int_value (from_end numbers 3);
     rssi := int_value (from_end numbers 2);
     sinr := float_value (from_end numbers 1) |}.

(** The one line that [get_signal_strength] logs for a reply, as the
    specification words it: a parse failure without the marker or with fewer
    than four tokens, the report of the last four tokens otherwise. [resp]
    is the text of the reply. *)
Definition claimed_signal_log (resp : text) : log_msg :=
  let numbers := findall_numbers resp in
  if negb (contains qeng_marker resp) then LogSignalUnexpected
  else if length numbers <? 4 then LogSignalIncomplete (strip resp)
  else LogSignalQuality (report_of numbers).

(** A token that [int] converts: it has no dot and at most [MAX_STR_DIGITS]
    digits. *)
Definition int_accepts (tok : text) : bool :=
  dotfree tok && (length (filter is_digit tok) <=? MAX_STR_DIGITS).

(** The same, with the third kind of failure that the code has: one of the
    three tokens that are read as integers is not one that [int] converts. *)
Definition signal_log (resp : text) : log_msg :=
  let numbers := findall_numbers resp in
  if negb (contains qeng_marker resp) then LogSignalUnexpected
  else if length numbers <? 4 then LogSignalIncomplete (strip resp)
  else if int_accepts (from_end numbers 4) && int_accepts (from_end numbers 3)
          && int_accepts (from_end numbers 2)
  then LogSignalQuality (report_of numbers)
  else LogSignalError ValueError.

(** A task of kind [k] that returned [True]. *)
Definition succeeded (k : check_type) (f : future) : bool :=
  match k, f with
  | Dns, (Dns, (_, Ok true)) => true
  | Ping, (Ping, (_, Ok true)) => true
  | _, _ => false
  end.

Definition dns_resolves (a : dns_answer) : bool :=
  match a with
  | Resolves => true
  | _ => false
  end.

Definition ping_succeeds (a : ping_answer) : bool :=
  match a with
  | PingExit rc => (rc =? 0)%Z
  | PingRaises _ => false
  end.

(** The value a run returns, for the functions that always return. *)
Definition detected (env : detect_env) : pyport :=
  match outcome (detect_at_port env) with
  | Ok r => r
  | Raise _ => None
  end.

Definition connected (env : check_env) : bool :=
  match outcome (check_connectivity_parallel env) with
  | Ok b => b
  | Raise _ => false
  end.

(** The fields of a line of the reply, as the specification words them:
    the pieces between the commas, stripped of quotes. *)
Definition claimed_fields (line : text) : list text :=
  map strip_quotes (split_on comma line).

(** The fields as the code takes them: each piece is stripped of the white
    space around it, and then of quotes. *)
Definition stripped_fields (line : text) : list text :=
  map (fun piece => strip_quotes (strip piece)) (split_on comma line).

(** The last two elements of a list. *)
Definition last_two (l : list text) : option (text * text) :=
  match rev l with
  | b :: a :: _ => Some (a, b)
  | _ => None
  end.

(** The DNS pair that a line offers, under a reading of its fields: the line
    has the marker and its last two fields are both non-empty. *)
Definition offered_pair (fields : text -> list text) (line : text)
  : option (text * text) :=
  if contains cgcontrdp_marker line then
    match last_two (fields line) with
    | Some (dns1, dns2) =>
        if nonempty dns1 && nonempty dns2 then Some (dns1, dns2) else None
    | None => None
    end
  else None.

(** The pair of the first line that offers one. *)
Fixpoint first_offer (fields : text -> list text) (lines : list text)
  : option (text * text) :=
  match lines with
  | [] => None
  | line :: rest =>
      match offered_pair fields line with
      | Some servers => Some servers
      | None => first_offer fields rest
      end
  end.

(** The DNS pair selected from a reply: the reply is decoded and cut into
    lines. *)
Definition selection (fields : text -> list text) (resp : bytes)
  : option (text * text) :=
  first_offer fields (splitlines (decode_ignore resp)).

(** [resolv.conf] for a carrier pair. *)
Definition carrier_resolv_conf (dns1 dns2 : text) : text :=
  txt "nameserver " ++ dns1 ++ [LF] ++ txt "nameserver " ++ dns2 ++ [LF].

(** What [fail_safe] does with a selection: the line it logs and the
    command it hands to the shell. *)
Definition choice_events (servers : option (text * text)) : list event :=
  match servers with
  | None => [ELog LogFallbackDns; ERun (tee_cmd fallback_resolv_conf)]
  | Some (dns1, dns2) =>
      [ELog (LogApplyingCarrierDns [dns1; dns2]);
       ERun (tee_cmd (carrier_resolv_conf dns1 dns2))]
  end.

(** The trace holds the settle delay of [detect_at_port]. *)
Definition settled (t : list event) : Prop :=
  exists pre mid, t = pre ++ ESleep 200%N :: mid.

(** A port whose answer to AT holds OK. *)
Definition answers_ok (env : detect_env) (port : text) : bool :=
  match at_reply env port with
  | Replies resp => bytes_contains (btxt "OK") resp
  | _ => false
  end.

(** A thread that is past [if b"OK" in resp]. *)
Definition past_probe (pc : worker_pc) : bool :=
  match pc with
  | WRecheck | WSet | WStore | WLog => true
  | _ => false
  end.

(** Only ports that answered OK get into the slot. *)
Definition sound (env : detect_env) (c : config) : Prop :=
  (forall x, found_port c = Some x -> answers_ok env x = true)
  /\ Forall (fun x => answers_ok env x = true) (stores c)
  /\ Forall (fun w => past_probe (w_pc w) = true ->
                      answers_ok env (w_port w) = true) (workers c).

(** The trace holds the settle delay and, after it, the telemetry exchange on
    a port [q] that answered OK. *)
Definition settled_and_read (env : detect_env) (t : list event) : Prop :=
  exists pre mid q post,
    answers_ok env q = true
    /\ t = pre ++ ESleep 200%N :: mid
           ++ trace (get_signal_strength (Some q) (signal_reply env (Some q)))
           ++ post.

(** Where the main thread of [detect_at_port] stands tells what it has done:
    past the settle delay the trace holds the delay; past the signal read it
    holds, after the delay, the telemetry exchange on the port that the slot
    held when it was read for the call. *)
Definition progress (env : detect_env) (c : config) : Prop :=
  match mpc c with
  | MSettle => found_port c <> None
  | MSignal => found_port c <> None /\ settled (events c)
  | MReturn => settled_and_read env (events c)
  | MDone (Some p) =>
      answers_ok env p = true /\ settled_and_read env (events c)
  | _ => True
  end.

(** At most one port answers OK. *)
Definition single_responder (env : detect_env) : Prop :=
  forall x y, answers_ok env x = true -> answers_ok env y = true -> x = y.

(** The ports to which a command was written, in order. *)
Fixpoint written_to (cmd : bytes) (t : list event) : list text :=
  match t with
  | [] => []
  | ESerialWrite p c :: t' =>
      if bytes_eqb c cmd then p :: written_to cmd t' else written_to cmd t'
  | _ :: t' => written_to cmd t'
  end.

(** The events of phase 1 of [main], when the first check has failed. *)
Definition soft_restart_trace (w : world) : list event :=
  ELog LogConnectivityMissing
    :: trace (call_netdiag_log [txt "wwan0"] (w_gateway0 w))
    ++ trace (restart_connection (w_restart w))
    ++ trace (check_connectivity_parallel (w_check1 w)).

(** The first line that [fail_safe] logs marks its invocation. *)
Definition is_entry (e : event) : bool :=
  match e with
  | ELog LogEnterFailSafe => true
  | _ => false
  end.

(** A trace without an invocation of [fail_safe]. *)
Definition quiet (t : list event) : bool :=
  forallb (fun e => negb (is_entry e)) t.

(** C7 as the specification words it: after the two lines of the banner the
    run begins with the connectivity check. *)
Definition starts_at_check (w : world) : Prop :=
  exists rest,
    trace (main w)
    = ELog LogBanner :: ELog LogStarting
        :: trace (check_connectivity_parallel (w_check0 w)) ++ rest.

(** Sample inputs. *)
Definition usb2 : text := txt "/dev/ttyUSB2".
Definition usb3 : text := txt "/dev/ttyUSB3".

Definition qeng_example : bytes :=
  btxt "+QENG: LTE,Online,...,-49,-14,-35,-10".

Definition qeng_decimal : bytes := btxt "+QENG: 1,2.5,3,4".

(** A reply with a byte that is not valid UTF-8 between two digits. *)
Definition qeng_undecodable : bytes :=
  btxt "+QENG: 1,2,3" ++ [ascii_of_nat 255] ++ btxt "4".

(** Every DNS host fails to resolve, the first ping host answers; the tasks
    complete in the reverse of the order of submission. *)
Definition env_dns_down : check_env :=
  {| dns_of := fun _ => NoSuchName;
     ping_of := fun h => if text_eqb h (txt "8.8.8.8") then PingExit 0
                         else PingExit 1;
     finish_time := fun i => 5 - i |}.

Definition ok_reply : bytes :=
  btxt "AT" ++ [CRb; CRb; LFb] ++ btxt "OK" ++ [CRb; LFb].

(** The directory of a modem with two ports that answer AT, and a foreign
    device. *)
Definition two_ports : list by_id_entry :=
  [ {| entry_name := txt "usb-Quectel_EG25-G-if02-port0";
       entry_realpath := usb2 |};
    {| entry_name := txt "usb-Quectel_EG25-G-if03-port0";
       entry_realpath := usb3 |};
    {| entry_name := txt "usb-FTDI_FT232R-if00-port0";
       entry_realpath := txt "/dev/ttyUSB7" |} ].

(** Both ports answer OK; the threads run as [sched] says. *)
Definition env_two_ports (sched : list nat) : detect_env :=
  {| by_id := two_ports;
     at_reply := fun _ => Replies ok_reply;
     polls := 50;
     schedule := sched;
     signal_reply := fun _ => Replies qeng_example |}.

(** The main thread submits both tasks and polls once; the thread of the
    first candidate runs to its end; the main thread goes on. *)
Definition sched_first_wins : list nat := [0; 0; 0; 0; 1; 1; 1; 1; 1; 1].

(** The line of the scenario. *)
Definition cgcontrdp_example : bytes :=
  btxt "+CGCONTRDP: 1,5," ++ quoted (btxt "isp.net") ++ btxt ",,,,"
  ++ quoted (btxt "10.0.0.1") ++ btxt "," ++ quoted (btxt "10.0.0.2").

Definition cgcontrdp_reply : bytes :=
  btxt "AT+CGCONTRDP=1" ++ [CRb; CRb; LFb] ++ cgcontrdp_example
  ++ [CRb; LFb; CRb; LFb] ++ btxt "OK" ++ [CRb; LFb].

(** The gateway lookup prints nothing; the diagnostics file is written. *)
Definition env_netdiag : netdiag_env :=
  {| gateway_output := None; append_fails := false |}.

(** A reply whose line has a blank before its last field. *)
Definition cgcontrdp_blank : bytes :=
  btxt "+CGCONTRDP: 1,5, ," ++ quoted (btxt "10.0.0.2").

Definition env_carrier_dns : failsafe_env :=
  {| fs_switch := Replies [];
     fs_detect := env_two_ports sched_first_wins;
     fs_query := Replies cgcontrdp_reply;
     fs_gateway := env_netdiag |}.

(** A reply whose line has a byte that is not valid UTF-8 for its last field
    but one. *)
Definition cgcontrdp_undecodable : bytes :=
  btxt "+CGCONTRDP: 1," ++ [ascii_of_nat 255] ++ btxt ","
  ++ quoted (btxt "10.0.0.2").

Definition env_undecodable_field : failsafe_env :=
  {| fs_switch := Replies [];
     fs_detect := env_two_ports sched_first_wins;
     fs_query := Replies cgcontrdp_undecodable;
     fs_gateway := env_netdiag |}.

(** The same, the reply to the context query having a blank field. *)
Definition env_blank_field : failsafe_env :=
  {| fs_switch := Replies [];
     fs_detect := env_two_ports sched_first_wins;
     fs_query := Replies cgcontrdp_blank;
     fs_gateway := env_netdiag |}.

(** Both tasks are submitted; each thread passes the test of [found_flag]
    before the other sets it; then the first sets the flag and stores its
    port. *)
Definition sched_first_claims : list nat :=
  [0; 0; 1; 1; 1; 2; 2; 2; 1; 1].

(** After that the second thread does the same. *)
Definition sched_second_overwrites : list nat :=
  sched_first_claims ++ [2; 2].

(** The same race seen from the main thread: the second thread stands
    between its test and its store while the main thread leaves the wait
    loop, sleeps and reads the signal of the first port; it stores its port
    before the main thread returns. *)
Definition sched_overwrite_before_return : list nat :=
  [0; 0; 0; 1; 1; 1; 2; 2; 2; 1; 1; 1; 0; 0; 0; 0; 2; 2; 2; 0].

(** No host resolves and none answers. *)
Definition env_offline : check_env :=
  {| dns_of := fun _ => NoSuchName;
     ping_of := fun _ => PingExit 1;
     finish_time := fun i => i |}.

(** Every host resolves and answers. *)
Definition env_online : check_env :=
  {| dns_of := fun _ => Resolves;
     ping_of := fun _ => PingExit 0;
     finish_time := fun i => i |}.

(** No modem is plugged in. *)
Definition env_no_modem : detect_env :=
  {| by_id := [];
     at_reply := fun _ => OpenFails;
     polls := 50;
     schedule := [];
     signal_reply := fun _ => OpenFails |}.

Definition env_restart : restart_env :=
  {| usb_times_out := false; quectel_times_out := false;
     vpn_times_out := false |}.

(** The link is up; the modem answers on [/dev/ttyUSB2]. *)
Definition world_online : world :=
  {| w_detect0 := env_two_ports sched_first_wins;
     w_check0 := env_online;
     w_gateway0 := env_netdiag;
     w_restart := env_restart;
     w_check1 := env_online;
     w_detect1 := env_two_ports sched_first_wins;
     w_failsafe := env_carrier_dns;
     w_check2 := env_online;
     w_gateway1 := env_netdiag |}.

(** The link is down and stays down; the modem answers on [/dev/ttyUSB2]. *)
Definition world_fail_safe : world :=
  {| w_detect0 := env_two_ports sched_first_wins;
     w_check0 := env_offline;
     w_gateway0 := env_netdiag;
     w_restart := env_restart;
     w_check1 := env_offline;
     w_detect1 := env_two_ports sched_first_wins;
     w_failsafe := env_carrier_dns;
     w_check2 := env_online;
     w_gateway1 := env_netdiag |}.

(** The diagnostics file cannot be written. *)
Definition env_netdiag_unwritable : netdiag_env :=
  {| gateway_output := None; append_fails := true |}.

(** The link is down and no modem is found; the diagnostics of [wwan0] are
    written, those of [usb0] are not. *)
Definition world_disk_full : world :=
  {| w_detect0 := env_no_modem;
     w_check0 := env_offline;
     w_gateway0 := env_netdiag;
     w_restart := env_restart;
     w_check1 := env_offline;
     w_detect1 := env_no_modem;
     w_failsafe := env_carrier_dns;
     w_check2 := env_offline;
     w_gateway1 := env_netdiag_unwritable |}.

(** The link is down and no modem is found. *)
Definition world_no_port : world :=
  {| w_detect0 := env_no_modem;
     w_check0 := env_offline;
     w_gateway0 := env_netdiag;
     w_restart := env_restart;
     w_check1 := env_offline;
     w_detect1 := env_no_modem;
     w_failsafe := env_carrier_dns;
     w_check2 := env_offline;
     w_gateway1 := env_netdiag |}.

(** ** Further observations *)

(** The shell commands run, the sleeps, and the ports opened and closed, in
    order. *)
Fixpoint runs (t : list event) : list text :=
  match t with
  | [] => []
  | ERun cmd :: t' => cmd :: runs t'
  | _ :: t' => runs t'
  end.

Fixpoint sleeps (t : list event) : list N :=
  match t with
  | [] => []
  | ESleep ms :: t' => ms :: sleeps t'
  | _ :: t' => sleeps t'
  end.

Fixpoint opened (t : list event) : list text :=
  match t with
  | [] => []
  | ESerialOpen p :: t' => p :: opened t'
  | _ :: t' => opened t'
  end.

Fixpoint closed (t : list event) : list text :=
  match t with
  | [] => []
  | ESerialClose p :: t' => p :: closed t'
  | _ :: t' => closed t'
  end.

(** The ports that the serial events of a trace name. *)
Fixpoint touched (t : list event) : list text :=
  match t with
  | [] => []
  | ESerialOpen p :: t' => p :: touched t'
  | ESerialWrite p _ :: t' => p :: touched t'
  | ESerialClose p :: t' => p :: touched t'
  | _ :: t' => touched t'
  end.

(** An event of the serial port, a sleep or a log line. *)
Definition serial_only (e : event) : bool :=
  match e with
  | ELog _ | ESleep _ | ESerialOpen _ | ESerialWrite _ _ | ESerialClose _ =>
      true
  | _ => false
  end.

(** The detection stays within the candidates: the slot, the threads and the
    serial events name candidates only, and nothing but the serial port is
    used. *)
Definition within (candidates : list text) (c : config) : Prop :=
  (forall x, found_port c = Some x -> In x candidates)
  /\ Forall (fun w => In (w_port w) candidates) (workers c)
  /\ Forall (fun p => In p candidates) (touched (events c))
  /\ forallb serial_only (events c) = true
  /\ match mpc c with
     | MDone (Some p) => In p candidates
     | _ => True
     end.

(** No candidate answers OK. *)
Definition no_responder (env : detect_env) (candidates : list text) : Prop :=
  forall p, In p candidates -> answers_ok env p = false.

(** What holds all along a detection in which no candidate answers: the flag
    and the slot are never written, no thread gets past its probe, and the
    main thread sleeps through the whole wait loop. *)
Definition idle (env : detect_env) (candidates : list text) (c : config)
  : Prop :=
  found_flag c = false
  /\ found_port c = None
  /\ Forall (fun w => In (w_port w) candidates /\ past_probe (w_pc w) = false)
       (workers c)
  /\ written_to qeng_cmd (events c) = []
  /\ match mpc c with
     | MSubmit _ => logs (events c) = [] /\ sleeps (events c) = []
     | MPoll n =>
         logs (events c) = [] /\ n <= polls env
         /\ sleeps (events c) = repeat 100%N (polls env - n)
     | MTest =>
         logs (events c) = [] /\ sleeps (events c) = repeat 100%N (polls env)
     | MDone None =>
         logs (events c) = [LogNoResponsive]
         /\ sleeps (events c) = repeat 100%N (polls env)
     | _ => False
     end.

(** Only [/dev/ttyUSB2] answers OK; the thread of the first candidate runs to
    its end before the main thread looks again. *)
Definition env_one_responder : detect_env :=
  {| by_id := two_ports;
     at_reply := fun p => if text_eqb p usb2 then Replies ok_reply
                          else Replies [];
     polls := 50;
     schedule := sched_first_wins;
     signal_reply := fun _ => Replies qeng_example |}.

(** The environment [env] under another interleaving of the threads. *)
Definition with_schedule (env : detect_env) (sched : list nat) : detect_env :=
  {| by_id := by_id env; at_reply := at_reply env; polls := polls env;
     schedule := sched; signal_reply := signal_reply env |}.

(** The main thread submits the first task; the thread of the first
    candidate runs up to [found_flag.set()] and stops before
    [found_port[0] = port]; the main thread goes on. *)
Definition sched_flag_before_store : list nat := [0; 1; 1; 1; 1].

(** What holds of the main thread from there on. *)
Definition flag_without_port (c : config) : Prop :=
  found_flag c = true
  /\ found_port c = None
  /\ match mpc c with
     | MSubmit _ | MPoll _ | MTest => logs (events c) = []
     | MDone None => logs (events c) = [LogNoResponsive]
     | _ => False
     end.

(** The modem is there and does not answer. *)
Definition env_silent : detect_env :=
  {| by_id := two_ports;
     at_reply := fun _ => Replies [];
     polls := 3;
     schedule := [0; 0; 1; 2; 1; 2; 0];
     signal_reply := fun _ => OpenFails |}.

(** Only a foreign device is plugged in. *)
Definition env_foreign : detect_env :=
  {| by_id := [ {| entry_name := txt "usb-FTDI_FT232R-if00-port0";
                   entry_realpath := txt "/dev/ttyUSB7" |} ];
     at_reply := fun _ => Replies ok_reply;
     polls := 50;
     schedule := [];
     signal_reply := fun _ => Replies qeng_example |}.

(** The command line of a ping. *)
Definition ping_argv (host : text) : list text :=
  [txt "ping"; txt "-c"; str_nat PING_COUNT; txt "-W"; str_nat PING_TIMEOUT;
   host].

(** The two lines that tell the verdict of a connectivity check. *)
Definition is_verdict (m : log_msg) : bool :=
  match m with
  | LogCheckSuccess | LogCheckFailed => true
  | _ => false
  end.

Definition verdicts (t : list event) : list log_msg :=
  filter is_verdict (logs t).

(** The same hosts, the tasks completing in another order. *)
Definition with_finish_time (env : check_env) (finish : nat -> nat)
  : check_env :=
  {| dns_of := dns_of env; ping_of := ping_of env; finish_time := finish |}.

(** The commands of the service restart and of the fail-safe. *)
Definition usb_modeswitch_cmd : text :=
  txt "sudo usb_modeswitch -R -v 2c7c -p 0125".
Definition restart_quectel_cmd : text :=
  txt "sudo systemctl restart quectel_connect.service".
Definition restart_vpn_cmd : text :=
  txt "sudo systemctl restart openvpn@client.service".
Definition stop_quectel_cmd : text :=
  txt "sudo systemctl stop quectel_connect.service".
Definition stop_vpn_cmd : text :=
  txt "sudo systemctl stop openvpn@client.service".
Definition start_vpn_cmd : text :=
  txt "sudo systemctl start openvpn@client.service".
Definition pkill_dhclient_cmd : text :=
  txt "sudo pkill -f 'dhclient -v " ++ IFACE_RNDIS ++ txt "' 2>/dev/null".
Definition dhclient_cmd : text :=
  txt "sudo dhclient " ++ IFACE_RNDIS ++ txt " -q".

(** The profile switch of [fail_safe]: its first [try] statement. *)
Definition switch_profile (at_port : pyport) (io : serial_session) : M unit :=
  try_except
    (with_serial at_port io (ser_write at_port io usbnet_cmd ;; sleep 500%N))
    (fun e => log (LogPortWriteError e)).

(** The value of [dns_servers] after the DNS query, and the text of
    [resolv_conf] made of it. *)
Definition queried (at_port_dns : pyport) (io : serial_session) : list text :=
  match outcome (query_carrier_dns at_port_dns io) with
  | Ok dns_servers => dns_servers
  | Raise _ => []
  end.

Definition resolv_conf_of (dns_servers : list text) : text :=
  match outcome (choose_resolv_conf dns_servers) with
  | Ok resolv_conf => resolv_conf
  | Raise _ => []
  end.

(** The [resolv_conf] that a run of [fail_safe] writes. *)
Definition written_resolv_conf (env : failsafe_env) : text :=
  resolv_conf_of (queried (detected (fs_detect env)) (fs_query env)).

(** The exception in which a run of [fail_safe] ends: the [TypeError] of the
    call of [netdiag_log] without its argument, or before it the
    [ValueError] of a command for [resolv.conf] that holds a NUL. *)
Definition fail_safe_error (env : failsafe_env) : exn :=
  if has_nul (tee_cmd (written_resolv_conf env)) then ValueError
  else TypeError.

(** The lines that the functions called by [main] log on their own account,
    the first line of [detect_at_port] and of [fail_safe] apart. *)
Definition sub_line (m : log_msg) : bool :=
  match m with
  | LogBanner | LogStarting | LogSystemOnline | LogConnectivityMissing
  | LogRestoredAfterRestart | LogRestoredWithFailSafe | LogNoAtPort
  | LogRebooting | LogDetecting | LogEnterFailSafe => false
  | _ => true
  end.

(** The lines that tell the course of a run: those of [main] itself, and the
    first line of each [detect_at_port] and of [fail_safe]. *)
Definition phase_line (m : log_msg) : bool := negb (sub_line m).

Definition phases (t : list event) : list log_msg :=
  filter phase_line (logs t).

(** An event of a detection or of a connectivity check: no command of the
    shell, no file, no line that tells the course of the run. *)
Definition probe_event (e : event) : bool :=
  match e with
  | ELog m => sub_line m
  | ERun _ | EAppend _ => false
  | _ => true
  end.

(** The course of a run of [main], as the outcomes of the two checks, of
    the detection of the fail-safe tier and of the two writes of the
    diagnostics file decide it. *)
Definition course (w : world) : list log_msg :=
  [LogBanner; LogStarting; LogDetecting]
  ++ if connected (w_check0 w) then [LogSystemOnline]
     else LogConnectivityMissing
          :: if append_fails (w_gateway0 w) then []
             else if connected (w_check1 w) then [LogRestoredAfterRestart]
             else LogDetecting
                  :: if truthy (detected (w_detect1 w))
                     then [LogEnterFailSafe; LogDetecting]
                     else if append_fails (w_gateway1 w) then []
                     else [LogNoAtPort; LogRebooting].

(** How the run ends: [main] returns, or an exception leaves it. *)
Definition ending (w : world) : result unit :=
  if connected (w_check0 w) then Ok tt
  else if append_fails (w_gateway0 w) then Raise OSError
  else if connected (w_check1 w) then Ok tt
  else if truthy (detected (w_detect1 w))
  then Raise (fail_safe_error (w_failsafe w))
  else if append_fails (w_gateway1 w) then Raise OSError
  else Ok tt.

(** The commands of a run of [main]. *)
Definition commands (w : world) : list text :=
  if connected (w_check0 w) then []
  else runs (trace (netdiag_log (txt "wwan0") (w_gateway0 w)))
       ++ if append_fails (w_gateway0 w) then []
          else [usb_modeswitch_cmd; restart_quectel_cmd; restart_vpn_cmd]
               ++ if connected (w_check1 w) then []
                  else if truthy (detected (w_detect1 w))
                       then [stop_quectel_cmd; stop_vpn_cmd;
                             pkill_dhclient_cmd; dhclient_cmd;
                             tee_cmd (written_resolv_conf (w_failsafe w))]
                       else runs (trace (netdiag_log (txt "usb0")
                                           (w_gateway1 w))).

(** The command of the hard reboot, which the source holds in a comment
    after the last line of [main]. *)
Definition reboot_cmd : text := txt "sudo reboot".

(** The world [w] with another answer to the third connectivity check. *)
Definition with_check2 (w : world) (env : check_env) : world :=
  {| w_detect0 := w_detect0 w; w_check0 := w_check0 w;
     w_gateway0 := w_gateway0 w; w_restart := w_restart w;
     w_check1 := w_check1 w; w_detect1 := w_detect1 w;
     w_failsafe := w_failsafe w; w_check2 := env;
     w_gateway1 := w_gateway1 w |}.

(** The DNS query of a run of [fail_safe] gets no reply: the detection
    before it found no port, or the serial port fails. *)
Definition query_fails (env : failsafe_env) : bool :=
  match detected (fs_detect env), fs_query env with
  | Some _, Replies _ => false
  | _, _ => true
  end.

(** The modem does not come back after the profile switch. *)
Definition env_modem_gone : failsafe_env :=
  {| fs_switch := WriteFails;
     fs_detect := env_no_modem;
     fs_query := Replies cgcontrdp_reply;
     fs_gateway := env_netdiag |}.

(* ================================================================== *)
(** * Part II: the properties                                          *)
(* ================================================================== *)

(** ** The monad *)

Lemma bind_ok {A B} (m : M A) (k : A -> M B) (a : A) :
  outcome m = Ok a ->
  bind m k = (trace m ++ trace (k a), outcome (k a)).
Proof.
  destruct m as [t r]; simpl; intros ->.
  destruct (k a); reflexivity.
Qed.

Lemma bind_raise {A B} (m : M A) (k : A -> M B) (e : exn) :
  outcome m = Raise e ->
  bind m k = (trace m, Raise e).
Proof.
  destruct m as [t r]; simpl; intros ->; reflexivity.
Qed.

Lemma bind_ok_eq {A B} (m : M A) (k : A -> M B) (a : A)
  (t : list event) (r : result B) :
  outcome m = Ok a -> k a = (t, r) -> bind m k = (trace m ++ t, r).
Proof.
  intros Hm Hk. rewrite (bind_ok m k a Hm), Hk. reflexivity.
Qed.

Lemma bind_emit_eq {B} (e : event) (k : unit -> M B)
  (t : list event) (r : result B) :
  k tt = (t, r) -> bind (emit e) k = (e :: t, r).
Proof.
  intros Hk. unfold bind, emit. rewrite Hk. reflexivity.
Qed.

Lemma suffix_app (u t s : list event) :
  (exists pre, t = pre ++ s) -> exists pre, u ++ t = pre ++ s.
Proof.
  intros [pre ->]. exists (u ++ pre). apply app_assoc.
Qed.

Lemma suffix_cons (e : event) (t s : list event) :
  (exists pre, t = pre ++ s) -> exists pre, e :: t = pre ++ s.
Proof.
  intros [pre ->]. now exists (e :: pre).
Qed.

Lemma suffix_refl (s : list event) : exists pre, s = pre ++ s.
Proof. now exists []. Qed.

Ltac seq_unit := eapply bind_ok_eq; [reflexivity | cbv beta].
Ltac seq_with H := eapply bind_ok_eq; [exact H | cbv beta].

(** ** The regular expression: the shape of a token *)

Lemma is_digit_differs (c x : char) :
  is_digit x = false -> is_digit c = true -> (c =? x)%N = false.
Proof.
  intros Hx Hc. destruct (N.eqb_spec c x) as [->|Hne]; [congruence|].
  reflexivity.
Qed.

Lemma is_digit_not_sign (c : char) (r : text) :
  is_digit c = true -> split_sign (c :: r) = (false, c :: r).
Proof.
  intros H. unfold split_sign.
  now rewrite (is_digit_differs c minus eq_refl H),
    (is_digit_differs c plus eq_refl H).
Qed.

Lemma is_digit_not_dot (c : char) :
  is_digit c = true -> (dot =? c)%N = false.
Proof.
  intros H. rewrite N.eqb_sym. now apply is_digit_differs.
Qed.

Lemma span_digits_fst (s : text) : forallb is_digit (fst (span_digits s)) = true.
Proof.
  induction s as [|c s IH]; simpl; [reflexivity|].
  destruct (is_digit c) eqn:Hc; [|reflexivity].
  destruct (span_digits s) as [d r]; simpl in *. now rewrite Hc.
Qed.

Lemma span_digits_snd (s : text) :
  match snd (span_digits s) with
  | [] => True
  | c :: _ => is_digit c = false
  end.
Proof.
  induction s as [|c s IH]; simpl; [exact I|].
  destruct (is_digit c) eqn:Hc; [|exact Hc].
  destruct (span_digits s) as [d r]; simpl in *. exact IH.
Qed.

Lemma span_digits_stop (s : text) :
  match s with [] => True | c :: _ => is_digit c = false end ->
  span_digits s = ([], s).
Proof.
  destruct s as [|c s]; simpl; [reflexivity|]. now intros ->.
Qed.

Lemma span_digits_app (d rest : text) :
  forallb is_digit d = true ->
  match rest with [] => True | c :: _ => is_digit c = false end ->
  span_digits (d ++ rest) = (d, rest).
Proof.
  intros Hd Hrest. induction d as [|c d IH]; simpl.
  - now apply span_digits_stop.
  - simpl in Hd. apply andb_true_iff in Hd as [Hc Hd].
    rewrite Hc, (IH Hd). reflexivity.
Qed.

(** An unsigned token: digits, and nothing more or a dot and digits. *)
Inductive unsigned_token : text -> Prop :=
| token_int (d : text) :
    d <> [] -> forallb is_digit d = true -> unsigned_token d
| token_dec (d f : text) :
    d <> [] -> forallb is_digit d = true -> forallb is_digit f = true ->
    unsigned_token (d ++ dot :: f).

(** A token: an unsigned token, or a minus sign and one. *)
Definition number_token (tok : text) : Prop :=
  unsigned_token tok \/ exists u, tok = minus :: u /\ unsigned_token u.

Lemma match_unsigned_token (s tok : text) :
  match_unsigned s = Some tok -> unsigned_token tok.
Proof.
  unfold match_unsigned, take_optional.
  pose proof (span_digits_fst s) as Hd.
  pose proof (span_digits_snd s) as Hs.
  destruct (span_digits s) as [d s2]; simpl in Hd, Hs.
  destruct d as [|c d]; [discriminate|].
  destruct s2 as [|x s2].
  - simpl. intros [= <-]. rewrite app_nil_r. now apply token_int.
  - destruct (N.eqb_spec x dot) as [->|Hx].
    + intros [= <-]. apply (token_dec (c :: d)); try easy.
      apply span_digits_fst.
    + rewrite span_digits_stop by exact Hs.
      simpl. intros [= <-]. rewrite app_nil_r. now apply token_int.
Qed.

Lemma match_number_token (s tok : text) :
  match_number s = Some tok -> number_token tok.
Proof.
  unfold match_number, take_optional.
  assert (Hu : match_unsigned s = Some tok -> number_token tok)
    by (intros Hm; left; now apply match_unsigned_token in Hm).
  destruct s as [|c r]; [exact Hu|].
  destruct (N.eqb_spec c minus) as [->|Hc]; [|exact Hu].
  destruct (match_unsigned r) as [u|] eqn:Hr; [|exact Hu].
  intros [= <-]. right. exists u. split; [reflexivity|].
  now apply match_unsigned_token in Hr.
Qed.

Lemma findall_from_tokens (s : text) :
  forall skip, Forall number_token (findall_from skip s).
Proof.
  induction s as [|c s IH]; intros skip; cbn -[match_number]; [constructor|].
  destruct skip as [|k]; [|apply IH].
  destruct (match_number (c :: s)) as [tok|] eqn:Hm; [|apply IH].
  constructor; [now apply match_number_token in Hm | apply IH].
Qed.

(** ** [int] and [float] on tokens *)

Lemma digits_no_dot (d : text) :
  forallb is_digit d = true -> existsb (N.eqb dot) d = false.
Proof.
  induction d as [|c d IH]; cbn [existsb forallb]; [reflexivity|].
  intros H. apply andb_true_iff in H as [Hc Hd].
  now rewrite (is_digit_not_dot c Hc), (IH Hd).
Qed.

Lemma filter_digits (d : text) :
  forallb is_digit d = true -> filter is_digit d = d.
Proof.
  induction d as [|c d IH]; cbn [filter forallb]; [reflexivity|].
  intros H. apply andb_true_iff in H as [Hc Hd].
  now rewrite Hc, (IH Hd).
Qed.

Lemma split_sign_unsigned (u : text) :
  unsigned_token u -> split_sign u = (false, u).
Proof.
  intros [d Hne Hd | d f Hne Hd Hf];
    (destruct d as [|c d]; [now contradiction Hne|]);
    simpl in Hd; apply andb_true_iff in Hd as [Hc _];
    now apply is_digit_not_sign.
Qed.

Lemma dotfree_unsigned_int (d : text) :
  forallb is_digit d = true -> dotfree d = true.
Proof.
  intros H. unfold dotfree. now rewrite digits_no_dot.
Qed.

Lemma dotfree_unsigned_dec (d f : text) : dotfree (d ++ dot :: f) = false.
Proof.
  unfold dotfree. rewrite existsb_app. cbn [existsb].
  rewrite N.eqb_refl. now rewrite orb_true_r.
Qed.

Lemma forallb_digit_dec (d f : text) :
  forallb is_digit (d ++ dot :: f) = false.
Proof.
  rewrite forallb_app. cbn [forallb].
  replace (is_digit dot) with false by reflexivity. now rewrite andb_false_r.
Qed.

Lemma int_accepts_minus (u : text) :
  int_accepts (minus :: u) = int_accepts u.
Proof.
  unfold int_accepts, dotfree. cbn [existsb filter].
  replace (dot =? minus)%N with false by reflexivity.
  replace (is_digit minus) with false by reflexivity.
  reflexivity.
Qed.

Lemma py_int_unsigned (neg : bool) (u : text) :
  unsigned_token u ->
  (if nonempty u && forallb is_digit u && (length u <=? MAX_STR_DIGITS)
   then @ret Z (signed neg (digits_val u)) else raise ValueError)
  = if int_accepts u then ret (signed neg (digits_val u))
    else raise ValueError.
Proof.
  unfold int_accepts. intros [d Hne Hd | d f Hne Hd Hf].
  - rewrite Hd, (dotfree_unsigned_int d Hd), (filter_digits d Hd).
    destruct d; [now contradiction Hne | reflexivity].
  - rewrite forallb_digit_dec, dotfree_unsigned_dec, andb_false_r.
    reflexivity.
Qed.

(** [int] accepts a token exactly when the token has no dot and at most
    [MAX_STR_DIGITS] digits. *)
Lemma py_int_token (tok : text) :
  number_token tok ->
  py_int tok = if int_accepts tok then ret (int_value tok)
               else raise ValueError.
Proof.
  intros Htok.
  assert (H : exists z, py_int tok
              = if int_accepts tok then ret z else raise ValueError).
  { unfold py_int. destruct Htok as [Hu | (u & -> & Hu)].
    - rewrite (split_sign_unsigned tok Hu). eexists.
      now apply py_int_unsigned.
    - replace (split_sign (minus :: u)) with (true, u) by reflexivity.
      rewrite int_accepts_minus.
      eexists. now apply py_int_unsigned. }
  destruct H as [z Hz]. unfold int_value. rewrite Hz.
  now destruct (int_accepts tok).
Qed.

(** [float] accepts every token. *)
Lemma py_float_token (tok : text) :
  number_token tok -> py_float tok = ret (float_value tok).
Proof.
  intros Htok.
  assert (H : exists q, py_float tok = ret q).
  { assert (Hu : forall neg u, unsigned_token u ->
              exists q,
                (let (ip, r) := span_digits u in
                 let (fp, ok) := match r with
                                 | [] => ([], true)
                                 | c :: f =>
                                     if (c =? dot)%N
                                     then (f, forallb is_digit f)
                                     else ([], false)
                                 end in
                 if ok && nonempty (ip ++ fp) then
                   ret (Qmake (signed neg (digits_val (ip ++ fp)))
                          (Z.to_pos (10 ^ Z.of_nat (length fp))))
                 else raise ValueError) = ret q).
    { intros neg u [d Hne Hd | d f Hne Hd Hf].
      - pose proof (span_digits_app d [] Hd I) as Hspan.
        rewrite app_nil_r in Hspan. rewrite Hspan.
        destruct d; [now contradiction Hne|]. eexists. reflexivity.
      - rewrite span_digits_app by easy. rewrite N.eqb_refl, Hf.
        destruct d; [now contradiction Hne|]. eexists. reflexivity. }
    unfold py_float. destruct Htok as [Hu' | (u & -> & Hu')].
    - rewrite (split_sign_unsigned tok Hu'). now apply Hu.
    - replace (split_sign (minus :: u)) with (true, u) by reflexivity.
      now apply Hu. }
  destruct H as [q Hq]. unfold float_value. now rewrite Hq.
Qed.

Lemma last_four_from_end (l : list text) :
  4 <= length l ->
  last_four l = [from_end l 4; from_end l 3; from_end l 2; from_end l 1].
Proof.
  intros Hlen.
  assert (H : exists pre a b c d, l = pre ++ [a; b; c; d]).
  { rewrite <- (rev_involutive l) in *. rewrite length_rev in Hlen.
    destruct (rev l) as [|d [|c [|b [|a r]]]]; simpl in Hlen; try lia.
    exists (rev r), a, b, c, d. simpl. now rewrite <- !app_assoc. }
  destruct H as (pre & a & b & c & d & ->).
  unfold last_four, from_end. rewrite length_app. simpl length.
  replace (length pre + 4 - 4) with (length pre) by lia.
  rewrite skipn_app, skipn_all, Nat.sub_diag. simpl.
  replace (length pre + 4 - 3) with (length pre + 1) by lia.
  replace (length pre + 4 - 2) with (length pre + 2) by lia.
  replace (length pre + 4 - 1) with (length pre + 3) by lia.
  rewrite !app_nth2_plus.
  replace (length pre) with (length pre + 0) at 1 by lia.
  rewrite app_nth2_plus. reflexivity.
Qed.

(** ** The run of [get_signal_strength] on a reply *)

Lemma get_signal_strength_run (port : text) (resp : bytes) :
  get_signal_strength (Some port) (Replies resp)
  = let opened := [ESerialOpen port; ESerialWrite port qeng_cmd;
                   ESleep 500%N] in
    match signal_log (decode_ignore resp) with
    | LogSignalError e =>
        (opened ++ [ESerialClose port; ELog (LogSignalError e)], Ok None)
    | m => (opened ++ [ELog m; ESerialClose port], Ok None)
    end.
Proof.
  unfold get_signal_strength, signal_log.
  cbn -[contains qeng_marker findall_numbers strip last_four py_int py_float
        from_end int_accepts report_of Nat.ltb decode_ignore].
  generalize (decode_ignore resp) as s. intros s.
  destruct (contains qeng_marker s); [|reflexivity].
  cbn -[findall_numbers strip last_four py_int py_float from_end int_accepts
        report_of Nat.ltb].
  destruct (length (findall_numbers s) <? 4) eqn:Hlen; [reflexivity|].
  apply Nat.ltb_ge in Hlen.
  pose proof (findall_from_tokens s 0) as Htok.
  fold (findall_numbers s) in Htok.
  rewrite (last_four_from_end _ Hlen).
  assert (Hin : forall i, 1 <= i <= 4 ->
            number_token (from_end (findall_numbers s) i)).
  { intros i Hi. rewrite Forall_forall in Htok. apply Htok.
    unfold from_end. apply nth_In. lia. }
  rewrite (py_int_token _ (Hin 4 ltac:(lia))),
          (py_int_token _ (Hin 3 ltac:(lia))),
          (py_int_token _ (Hin 2 ltac:(lia))),
          (py_float_token _ (Hin 1 ltac:(lia))).
  unfold report_of.
  destruct (int_accepts (from_end (findall_numbers s) 4));
    [|reflexivity].
  destruct (int_accepts (from_end (findall_numbers s) 3));
    [|reflexivity].
  destruct (int_accepts (from_end (findall_numbers s) 2));
    reflexivity.
Qed.

(** C4, as the specification words it, fails. The reply
    [+QENG: 1,2.5,3,4] has the marker and four numeric tokens, and yet no
    report is made of them: [int("2.5")] raises [ValueError], the handler of
    the function catches it and logs a signal check error. *)
Lemma signal_report_claim_fails_on_decimal_token :
  decode_ignore qeng_decimal = txt "+QENG: 1,2.5,3,4"
  /\ contains qeng_marker (decode_ignore qeng_decimal) = true
  /\ findall_numbers (decode_ignore qeng_decimal)
     = [txt "1"; txt "2.5"; txt "3"; txt "4"]
  /\ logs (trace (get_signal_strength (Some usb2) (Replies qeng_decimal)))
     = [LogSignalError ValueError]
  /\ logs (trace (get_signal_strength (Some usb2) (Replies qeng_decimal)))
     <> [claimed_signal_log (decode_ignore qeng_decimal)].
Proof.
  repeat split; try reflexivity.
  vm_compute. discriminate.
Qed.

(** C4, amended. [get_signal_strength] decodes the reply as UTF-8 and drops
    the bytes that are not valid. For every port and every reply it returns
    without an exception and logs one line. The line is a parse failure when
    the text of the reply lacks the marker, when it has fewer than four
    numeric tokens, and when one of the three tokens read as integers (the
    first three of the last four) is not one that [int] converts, for its
    decimal point or for more than 4300 digits; otherwise it is the report
    whose RSRP, RSRQ and RSSI are the integers and whose SINR is the decimal
    number of the last four tokens, in that order. The reply of the scenario
    gives RSRP=-49, RSRQ=-14, RSSI=-35, SINR=-10.0; the reply
    [+QENG: 1,2,3<FF>4] reads [+QENG: 1,2,34] and has three tokens. *)
Theorem get_signal_strength_parses_last_four :
  (forall port resp,
     outcome (get_signal_strength (Some port) (Replies resp)) = Ok None
     /\ logs (trace (get_signal_strength (Some port) (Replies resp)))
        = [signal_log (decode_ignore resp)])
  /\ signal_log (decode_ignore qeng_example)
     = LogSignalQuality
         {| rsrp := (-49)%Z; rsrq := (-14)%Z; rssi := (-35)%Z;
            sinr := (-10 # 1)%Q |}
  /\ signal_log (decode_ignore qeng_undecodable)
     = LogSignalIncomplete (txt "+QENG: 1,2,34").
Proof.
  split; [|split; reflexivity].
  intros port resp. rewrite get_signal_strength_run. cbv zeta.
  destruct (signal_log (decode_ignore resp)); split; reflexivity.
Qed.

(** C8. For every port argument, [None] included, and for everything the
    device may do (refuse to open, fail on the write or on the read, or send
    any reply) [get_signal_strength] returns [None]: no report is returned,
    and no exception leaves the function. *)
Theorem get_signal_strength_returns_none :
  forall (port : pyport) (io : serial_session),
    outcome (get_signal_strength port io) = Ok None.
Proof.
  intros [port|] io.
  - destruct io as [| | |resp]; try reflexivity.
    rewrite get_signal_strength_run. cbv zeta.
    now destruct (signal_log (decode_ignore resp)).
  - reflexivity.
Qed.

(** ** The connectivity check *)

Lemma emit_all_run (t : list event) : emit_all t = (t, Ok tt).
Proof.
  induction t as [|e t IH]; [reflexivity|].
  simpl. rewrite IH. reflexivity.
Qed.

Lemma insert_by_time_perm {A} (x : nat * A) (l : list (nat * A)) :
  Permutation (insert_by_time x l) (x :: l).
Proof.
  induction l as [|y l IH]; simpl; [apply Permutation_refl|].
  destruct (fst x <? fst y); [apply Permutation_refl|].
  eapply perm_trans; [apply perm_skip, IH | apply perm_swap].
Qed.

Lemma insertion_sort_perm {A} (l : list (nat * A)) :
  Permutation (fold_right insert_by_time [] l) l.
Proof.
  induction l as [|x l IH]; simpl; [apply perm_nil|].
  eapply perm_trans; [apply insert_by_time_perm | apply perm_skip, IH].
Qed.

Lemma map_snd_combine {A B} (a : list A) (b : list B) :
  length a = length b -> map snd (combine a b) = b.
Proof.
  revert b. induction a as [|x a IH]; intros [|y b] H; simpl in *;
    try reflexivity; try discriminate.
  f_equal. apply IH. lia.
Qed.

(** [as_completed] yields every future, once. *)
Lemma as_completed_perm {A} (finish : nat -> nat) (fs : list A) :
  Permutation (as_completed finish fs) fs.
Proof.
  unfold as_completed.
  eapply perm_trans; [apply Permutation_map, insertion_sort_perm|].
  rewrite map_snd_combine; [apply Permutation_refl|].
  now rewrite length_map, length_seq.
Qed.

Lemma existsb_perm {A} (f : A -> bool) (l l' : list A) :
  Permutation l l' -> existsb f l = existsb f l'.
Proof.
  induction 1; simpl; try congruence.
  now rewrite !orb_assoc, (orb_comm (f y)).
Qed.

Lemma existsb_map {A B} (f : B -> bool) (g : A -> B) (l : list A) :
  existsb f (map g l) = existsb (fun a => f (g a)) l.
Proof.
  induction l as [|a l IH]; simpl; congruence.
Qed.

Lemma existsb_pointwise {A} (f g : A -> bool) (l : list A) :
  (forall a, f a = g a) -> existsb f l = existsb g l.
Proof.
  intros H. induction l as [|a l IH]; simpl; [reflexivity|].
  now rewrite H, IH.
Qed.

(** The loop returns [True] exactly when, the flags counted in, a DNS task
    and a ping task among those it takes up returned [True]. *)
Lemma check_loop_outcome (completed : list future) :
  forall dns_ok ping_ok,
    dns_ok && ping_ok = false ->
    outcome (check_loop dns_ok ping_ok completed)
    = Ok (if (dns_ok || existsb (succeeded Dns) completed)
             && (ping_ok || existsb (succeeded Ping) completed)
          then Some true else None).
Proof.
  induction completed as [|[k [t o]] rest IH]; intros d p Hdp.
  - simpl. rewrite !orb_false_r, Hdp. reflexivity.
  - cbn [check_loop].
    rewrite (bind_ok _ _ tt) by now rewrite emit_all_run.
    cbn [outcome snd].
    destruct o as [result|e].
    + destruct k, result, d, p; try discriminate Hdp;
        cbn [is_dns is_ping andb orb existsb succeeded];
        try (rewrite IH by reflexivity; cbn [orb andb]; reflexivity);
        rewrite (bind_ok _ _ tt) by reflexivity;
        rewrite (bind_ok _ _ tt) by (now rewrite emit_all_run);
        reflexivity.
    + rewrite (bind_ok _ _ tt) by reflexivity.
      cbn [outcome snd]. rewrite IH by exact Hdp.
      destruct k; cbn [existsb succeeded]; rewrite !orb_false_l; reflexivity.
Qed.

Lemma succeeded_dns_host (h : text) (a : dns_answer) :
  succeeded Dns (Dns, check_dns_host h a) = dns_resolves a.
Proof.
  destruct a as [| |e]; try reflexivity. now destruct e.
Qed.

Lemma succeeded_ping_host (h : text) (a : ping_answer) :
  succeeded Ping (Ping, check_ping_host h a) = ping_succeeds a.
Proof.
  destruct a as [rc|e]; [|reflexivity].
  unfold check_ping_host, run_ping. simpl.
  now destruct (rc =? 0)%Z.
Qed.

Lemma succeeded_submitted_dns (env : check_env) :
  existsb (succeeded Dns) (submitted env)
  = existsb (fun h => dns_resolves (dns_of env h)) DNS_HOSTS.
Proof.
  unfold submitted. rewrite existsb_app, !existsb_map.
  rewrite (existsb_pointwise _ (fun h => dns_resolves (dns_of env h)))
    by (intros h; apply succeeded_dns_host).
  rewrite (existsb_pointwise
             (fun a => succeeded Dns (Ping, check_ping_host a (ping_of env a)))
             (fun _ => false)) by reflexivity.
  simpl. now rewrite !orb_false_r.
Qed.

Lemma succeeded_submitted_ping (env : check_env) :
  existsb (succeeded Ping) (submitted env)
  = existsb (fun h => ping_succeeds (ping_of env h)) PING_HOSTS.
Proof.
  unfold submitted. rewrite existsb_app, !existsb_map.
  rewrite (existsb_pointwise
             (fun a => succeeded Ping (Dns, check_dns_host a (dns_of env a)))
             (fun _ => false)) by reflexivity.
  rewrite (existsb_pointwise _ (fun h => ping_succeeds (ping_of env h))
             PING_HOSTS)
    by (intros h; apply succeeded_ping_host).
  reflexivity.
Qed.

Lemma check_connectivity_outcome (env : check_env) :
  outcome (check_connectivity_parallel env)
  = Ok (existsb (succeeded Dns) (submitted env)
        && existsb (succeeded Ping) (submitted env)).
Proof.
  unfold check_connectivity_parallel.
  rewrite (bind_ok _ _ tt) by reflexivity. cbn [outcome snd].
  pose proof (check_loop_outcome
                (as_completed (finish_time env) (submitted env))
                false false eq_refl) as H.
  rewrite !orb_false_l in H.
  rewrite !(existsb_perm _ _ _ (as_completed_perm _ _)) in H.
  rewrite (bind_ok _ _ _ H). cbn [outcome snd].
  now destruct (existsb (succeeded Dns) (submitted env)
                && existsb (succeeded Ping) (submitted env)).
Qed.

(** C3. For every outcome of every host and every order in which the tasks
    complete, [check_connectivity_parallel] returns, and it returns [True]
    exactly when a DNS task and a ping task of the completed set returned
    [True], that is when some DNS host resolves and some ping host answers
    with exit status 0. With every DNS host failing and one ping host
    answering it returns [False]. *)
Theorem check_connectivity_needs_dns_and_ping :
  (forall env : check_env,
     let completed := as_completed (finish_time env) (submitted env) in
     outcome (check_connectivity_parallel env)
     = Ok (existsb (succeeded Dns) completed
           && existsb (succeeded Ping) completed)
     /\ existsb (succeeded Dns) completed
        = existsb (fun h => dns_resolves (dns_of env h)) DNS_HOSTS
     /\ existsb (succeeded Ping) completed
        = existsb (fun h => ping_succeeds (ping_of env h)) PING_HOSTS)
  /\ existsb (fun h => ping_succeeds (ping_of env_dns_down h)) PING_HOSTS
     = true
  /\ outcome (check_connectivity_parallel env_dns_down) = Ok false.
Proof.
  split; [|split; reflexivity].
  intros env completed. subst completed.
  rewrite !(existsb_perm _ _ _ (as_completed_perm _ _)).
  split; [apply check_connectivity_outcome|].
  split; [apply succeeded_submitted_dns | apply succeeded_submitted_ping].
Qed.

(** ** The carrier DNS of the fail-safe *)

Lemma rev_two_nth {A} (l r : list A) (a b d : A) :
  rev l = b :: a :: r ->
  2 <= length l
  /\ nth (length l - 2) l d = a
  /\ nth (length l - 1) l d = b.
Proof.
  intros H. apply (f_equal (@rev A)) in H. rewrite rev_involutive in H.
  subst l. simpl. rewrite <- app_assoc. simpl.
  rewrite length_app. simpl. split; [lia|].
  replace (length (rev r) + 2 - 2) with (length (rev r) + 0) by lia.
  replace (length (rev r) + 2 - 1) with (length (rev r) + 1) by lia.
  now rewrite !app_nth2_plus.
Qed.

Lemma rev_short {A} (l : list A) :
  match rev l with
  | _ :: _ :: _ => True
  | _ => length l < 2
  end.
Proof.
  rewrite <- (length_rev l).
  destruct (rev l) as [|b [|a r]]; simpl; auto.
Qed.

(** One turn of the loop: the first line that offers a pair ends it. *)
Lemma scan_lines_cons (line : text) (rest : list text) :
  scan_lines (line :: rest)
  = match offered_pair stripped_fields line with
    | Some (dns1, dns2) => [dns1; dns2]
    | None => scan_lines rest
    end.
Proof.
  cbn [scan_lines]. cbv zeta. unfold offered_pair, last_two.
  change (stripped_fields line) with (parts_of line).
  destruct (contains cgcontrdp_marker line); [|reflexivity].
  pose proof (rev_short (parts_of line)) as Hshort.
  destruct (rev (parts_of line)) as [|dns2 [|dns1 r]] eqn:Hrev.
  - assert (E : (2 <=? length (parts_of line)) = false)
      by (apply Nat.leb_gt; exact Hshort).
    now rewrite E.
  - assert (E : (2 <=? length (parts_of line)) = false)
      by (apply Nat.leb_gt; exact Hshort).
    now rewrite E.
  - destruct (rev_two_nth _ _ _ _ [] Hrev) as (Hlen & H1 & H2).
    assert (E : (2 <=? length (parts_of line)) = true)
      by (apply Nat.leb_le; exact Hlen).
    assert (E1 : nth (length (parts_of line) - 2) (parts_of line) [] = dns1)
      by exact H1.
    assert (E2 : nth (length (parts_of line) - 1) (parts_of line) [] = dns2)
      by exact H2.
    rewrite E, E1, E2.
    now destruct (nonempty dns1 && nonempty dns2).
Qed.

(** The loop selects the pair of the first line that offers one. *)
Lemma scan_lines_first_offer (lines : list text) :
  scan_lines lines
  = match first_offer stripped_fields lines with
    | Some (dns1, dns2) => [dns1; dns2]
    | None => []
    end.
Proof.
  induction lines as [|line rest IH]; [reflexivity|].
  rewrite scan_lines_cons. cbn [first_offer].
  now destruct (offered_pair stripped_fields line) as [[dns1 dns2]|].
Qed.

Lemma first_offer_none (fields : text -> list text) (lines : list text) :
  first_offer fields lines = None
  <-> forall line, In line lines -> offered_pair fields line = None.
Proof.
  induction lines as [|line rest IH]; cbn [first_offer].
  - split; [intros _ line [] | reflexivity].
  - destruct (offered_pair fields line) as [servers|] eqn:Hp.
    + split; [discriminate|].
      intros H. specialize (H line (or_introl eq_refl)). congruence.
    + rewrite IH. split.
      * intros H l [<-|Hl]; [exact Hp | now apply H].
      * intros H l Hl. apply H. now right.
Qed.

Lemma first_offer_some (fields : text -> list text) (lines : list text)
  (servers : text * text) :
  first_offer fields lines = Some servers
  <-> exists before line after,
        lines = before ++ line :: after
        /\ (forall l, In l before -> offered_pair fields l = None)
        /\ offered_pair fields line = Some servers.
Proof.
  induction lines as [|line rest IH]; cbn [first_offer].
  - split; [discriminate|].
    intros (before & l & after & H & _). now destruct before.
  - destruct (offered_pair fields line) as [found|] eqn:Hp.
    + split.
      * intros [= <-]. exists [], line, rest. repeat split; [intros l []|].
        exact Hp.
      * intros ([|l0 before] & l & after & H & Hb & Hl); injection H as <- _.
        -- congruence.
        -- specialize (Hb line (or_introl eq_refl)). congruence.
    + rewrite IH. split.
      * intros (before & l & after & -> & Hb & Hl).
        exists (line :: before), l, after. repeat split; [|exact Hl].
        intros l' [<-|Hl']; [exact Hp | now apply Hb].
      * intros ([|l0 before] & l & after & H & Hb & Hl); injection H as <- H.
        -- congruence.
        -- exists before, l, after. repeat split; try assumption.
           intros l' Hl'. apply Hb. now right.
Qed.

Lemma detect_at_port_returns (env : detect_env) :
  outcome (detect_at_port env) = Ok (detected env).
Proof.
  unfold detected, detect_at_port.
  rewrite (bind_ok _ _ tt) by reflexivity. cbn [outcome snd].
  now destruct (get_quectel_ports (by_id env)).
Qed.

Lemma query_carrier_dns_reply (p : text) (resp : bytes) :
  outcome (query_carrier_dns (Some p) (Replies resp))
  = Ok (scan_lines (splitlines (decode_ignore resp))).
Proof. reflexivity. Qed.

Lemma query_carrier_dns_returns (at_port_dns : pyport) (io : serial_session) :
  exists dns_servers,
    outcome (query_carrier_dns at_port_dns io) = Ok dns_servers.
Proof.
  destruct at_port_dns as [p|], io; eexists; reflexivity.
Qed.

Lemma switch_profile_returns (at_port : pyport) (io : serial_session) :
  outcome
    (try_except
       (with_serial at_port io (ser_write at_port io usbnet_cmd ;; sleep 500%N))
       (fun e => log (LogPortWriteError e))) = Ok tt.
Proof.
  destruct at_port as [p|], io; reflexivity.
Qed.

Lemma choose_resolv_conf_run (dns_servers : list text) :
  choose_resolv_conf dns_servers
  = match dns_servers with
    | [] => ([ELog LogFallbackDns], Ok fallback_resolv_conf)
    | _ :: _ =>
        ([ELog (LogApplyingCarrierDns dns_servers)],
         Ok (join [LF] (map (fun dns => txt "nameserver " ++ dns) dns_servers)
             ++ [LF]))
    end.
Proof.
  now destruct dns_servers.
Qed.

Lemma log_cmd_run (cmd : text) : log_cmd cmd = ([ERun cmd], Ok tt).
Proof.
  unfold log_cmd, run. cbn [emit bind]. now destruct (has_nul cmd).
Qed.

(** The runs of [netdiag_log]: with or without the ping of the gateway,
    with or without the append. *)
Ltac netdiag_cases env :=
  unfold call_netdiag_log, netdiag_log; rewrite !log_cmd_run; cbv zeta;
  match goal with
  | |- context [if ?b then ([ERun _], Ok tt) else ret tt] => destruct b
  end;
  destruct (append_fails env);
  cbn [bind emit ret raise trace fst outcome snd app].

(** The end of [fail_safe]: the command for [resolv.conf] and the call of
    [netdiag_log] without its argument. *)
Lemma fail_safe_tail (resolv_conf : text) (env : netdiag_env) :
  (run (tee_cmd resolv_conf) ;;
   call_netdiag_log [] env ;;
   log LogRestartingOpenVpn ;;
   run (txt "sudo systemctl start openvpn@client.service"))
  = ([ERun (tee_cmd resolv_conf)],
     Raise (if has_nul (tee_cmd resolv_conf) then ValueError else TypeError)).
Proof.
  unfold run. cbn [emit bind]. now destruct (has_nul (tee_cmd resolv_conf)).
Qed.

(** The run of [fail_safe]: it ends in an exception right after the command
    for [resolv.conf], the [TypeError] of the call of [netdiag_log] without
    its argument or the [ValueError] of a command with a NUL. *)
Lemma fail_safe_run (at_port : pyport) (env : failsafe_env) :
  exists rest dns_servers resolv_conf,
    outcome (query_carrier_dns (detected (fs_detect env)) (fs_query env))
    = Ok dns_servers
    /\ outcome (choose_resolv_conf dns_servers) = Ok resolv_conf
    /\ fail_safe at_port env
       = (ELog LogEnterFailSafe :: rest,
          Raise (if has_nul (tee_cmd resolv_conf) then ValueError
                 else TypeError))
    /\ exists pre,
         rest = pre ++ trace (choose_resolv_conf dns_servers)
                ++ [ERun (tee_cmd resolv_conf)].
Proof.
  destruct (query_carrier_dns_returns (detected (fs_detect env)) (fs_query env))
    as [dns_servers Hq].
  assert (Hc : exists resolv_conf,
             outcome (choose_resolv_conf dns_servers) = Ok resolv_conf)
    by (rewrite choose_resolv_conf_run; destruct dns_servers; eexists;
        reflexivity).
  destruct Hc as [resolv_conf Hc].
  eexists _, dns_servers, resolv_conf. split; [exact Hq|]. split; [exact Hc|].
  split.
  - unfold fail_safe.
    apply bind_emit_eq.
    do 5 seq_unit.
    seq_with (switch_profile_returns at_port (fs_switch env)).
    do 7 seq_unit.
    seq_with (detect_at_port_returns (fs_detect env)).
    seq_with Hq. seq_with Hc.
    apply fail_safe_tail.
  - do 15 apply suffix_app. apply suffix_refl.
Qed.

Lemma carrier_resolv_conf_join (dns1 dns2 : text) :
  join [LF] (map (fun dns => txt "nameserver " ++ dns) [dns1; dns2]) ++ [LF]
  = carrier_resolv_conf dns1 dns2.
Proof.
  unfold carrier_resolv_conf. cbn [map join].
  now rewrite <- !app_assoc.
Qed.

(** The last two events of [fail_safe], when the detection inside it has
    returned a port and the device has answered the context query. *)
Lemma fail_safe_choice (at_port : pyport) (env : failsafe_env) (p : text)
  (resp : bytes) :
  outcome (detect_at_port (fs_detect env)) = Ok (Some p) ->
  fs_query env = Replies resp ->
  exists pre,
    trace (fail_safe at_port env)
    = pre ++ choice_events (selection stripped_fields resp).
Proof.
  intros Hdet Hio.
  destruct (fail_safe_run at_port env)
    as (rest & dns_servers & resolv_conf & Hq & Hc & Hrun & pre & Hrest).
  rewrite detect_at_port_returns in Hdet. injection Hdet as Hdet.
  rewrite Hdet, Hio, query_carrier_dns_reply in Hq. injection Hq as Hq.
  exists (ELog LogEnterFailSafe :: pre).
  rewrite Hrun, Hrest. cbn [trace fst app]. do 2 f_equal.
  rewrite scan_lines_first_offer in Hq.
  fold (selection stripped_fields resp) in Hq.
  rewrite choose_resolv_conf_run in Hc |- *.
  destruct (selection stripped_fields resp) as [[dns1 dns2]|];
    subst dns_servers; cbn [outcome snd] in Hc.
  - rewrite carrier_resolv_conf_join in Hc. injection Hc as <-. reflexivity.
  - injection Hc as <-. reflexivity.
Qed.

Lemma last_two_events_inj (pre pre' : list event) (a b a' b' : event) :
  pre ++ [a; b] = pre' ++ [a'; b'] -> a = a' /\ b = b'.
Proof.
  change (pre ++ [a; b]) with (pre ++ [a] ++ [b]).
  change (pre' ++ [a'; b']) with (pre' ++ [a'] ++ [b']).
  rewrite !app_assoc. intros H.
  apply app_inj_tail in H as [H ->]. apply app_inj_tail in H as [_ ->].
  now split.
Qed.

(** C5, as the specification words it, fails. In the reply
    [+CGCONTRDP: 1,5, ,"10.0.0.2"] the last two fields between commas are a
    blank and an address in quotes; with the quotes stripped both are
    non-empty, so that the line offers the pair of the blank and 10.0.0.2.
    The code strips the white space of a field first: the blank is an empty
    field and [fail_safe] falls back to the fixed pair. *)
Lemma dns_selection_claim_fails_on_blank_field :
  selection claimed_fields cgcontrdp_blank
  = Some (txt " ", txt "10.0.0.2")
  /\ (exists pre,
        trace (fail_safe (Some usb2) env_blank_field)
        = pre ++ [ELog LogFallbackDns; ERun (tee_cmd fallback_resolv_conf)])
  /\ ~ (exists pre,
          trace (fail_safe (Some usb2) env_blank_field)
          = pre ++ choice_events (selection claimed_fields cgcontrdp_blank)).
Proof.
  split; [reflexivity|].
  destruct (fail_safe_choice (Some usb2) env_blank_field usb2 cgcontrdp_blank
              eq_refl eq_refl) as [pre H].
  change (selection stripped_fields cgcontrdp_blank) with (@None (text * text))
    in H.
  split; [now exists pre|].
  intros [pre' H']. rewrite H in H'.
  change (selection claimed_fields cgcontrdp_blank)
    with (Some (txt " ", txt "10.0.0.2")) in H'.
  apply last_two_events_inj in H' as [H' _]. discriminate H'.
Qed.

(** C5, amended. Let the port detection inside [fail_safe] return a port and
    let the device answer the context query with the bytes [resp]. The reply
    is decoded (bytes that are not valid UTF-8 are dropped) and cut into
    lines; the fields of a line are its pieces between commas, each stripped
    of the white space around it and then of quotes. Then the last two
    events of [fail_safe] are the log line of the choice and the command
    built for [resolv.conf], and
    - they are the fallback line and the fixed pair 8.8.8.8, 8.8.4.4 if and
      only if no line of the reply has the marker and two non-empty last
      fields;
    - otherwise they name the last two fields of the first such line. *)
Theorem fail_safe_dns_selection :
  forall (at_port : pyport) (env : failsafe_env) (p : text) (resp : bytes),
    outcome (detect_at_port (fs_detect env)) = Ok (Some p) ->
    fs_query env = Replies resp ->
    (exists pre,
       trace (fail_safe at_port env)
       = pre ++ choice_events (selection stripped_fields resp))
    /\ (selection stripped_fields resp = None
        <-> forall line,
              In line (splitlines (decode_ignore resp)) ->
              offered_pair stripped_fields line = None)
    /\ (forall dns1 dns2,
          selection stripped_fields resp = Some (dns1, dns2)
          <-> exists before line after,
                splitlines (decode_ignore resp) = before ++ line :: after
                /\ (forall l, In l before ->
                               offered_pair stripped_fields l = None)
                /\ offered_pair stripped_fields line = Some (dns1, dns2)).
Proof.
  intros at_port env p resp Hdet Hio.
  split; [now apply (fail_safe_choice at_port env p)|].
  split; [apply first_offer_none | intros; apply first_offer_some].
Qed.

(** The theorem at the reply of the scenario, the detection having found
    [/dev/ttyUSB2]: the line
    [+CGCONTRDP: 1,5,"isp.net",,,,"10.0.0.1","10.0.0.2"] gives the carrier
    DNS set 10.0.0.1, 10.0.0.2. And at the reply [+CGCONTRDP: 1,<FF>,"10.0.0.2"]:
    the byte is dropped, the field is empty and the fixed pair is taken. *)
Lemma fail_safe_dns_selection_witness :
  (outcome (detect_at_port (fs_detect env_carrier_dns)) = Ok (Some usb2)
   /\ fs_query env_carrier_dns = Replies cgcontrdp_reply
   /\ exists pre,
        trace (fail_safe (Some usb2) env_carrier_dns)
        = pre ++ [ELog (LogApplyingCarrierDns
                          [txt "10.0.0.1"; txt "10.0.0.2"]);
                  ERun (tee_cmd (carrier_resolv_conf (txt "10.0.0.1")
                                   (txt "10.0.0.2")))])
  /\ (outcome (detect_at_port (fs_detect env_undecodable_field))
      = Ok (Some usb2)
      /\ fs_query env_undecodable_field = Replies cgcontrdp_undecodable
      /\ exists pre,
           trace (fail_safe (Some usb2) env_undecodable_field)
           = pre ++ [ELog LogFallbackDns;
                     ERun (tee_cmd fallback_resolv_conf)]).
Proof.
  split; (split; [reflexivity|]); (split; [reflexivity|]).
  - exact (proj1 (fail_safe_dns_selection (Some usb2) env_carrier_dns usb2
                    cgcontrdp_reply eq_refl eq_refl)).
  - exact (proj1 (fail_safe_dns_selection (Some usb2) env_undecodable_field
                    usb2 cgcontrdp_undecodable eq_refl eq_refl)).
Defined.

(** ** The threads of [detect_at_port] *)

Section Threads.

Variable env : detect_env.
Variable candidates : list text.

Lemma caller_step_is_step (c : config) :
  caller_step env candidates c = step env candidates 0 c.
Proof. reflexivity. Qed.

(** What every step preserves holds when the main thread returns. *)
Lemma run_caller_inv (P : config -> Prop) :
  (forall c tid, P c -> P (step env candidates tid c)) ->
  forall fuel c, P c -> P (run_caller env candidates fuel c).
Proof.
  intros Hstep fuel. induction fuel as [|f IH]; intros c Hc; simpl.
  - exact Hc.
  - apply IH. rewrite caller_step_is_step. now apply Hstep.
Qed.

Lemma run_until_return_inv (P : config -> Prop) :
  (forall c tid, P c -> P (step env candidates tid c)) ->
  forall sched c, P c -> P (run_until_return env candidates sched c).
Proof.
  intros Hstep sched. induction sched as [|tid rest IH]; intros c Hc; simpl.
  - now apply run_caller_inv.
  - destruct (caller_done c); [exact Hc|]. apply IH. now apply Hstep.
Qed.

Lemma exec_inv (P : config -> Prop) :
  (forall c tid, P c -> P (step env candidates tid c)) ->
  forall sched c, P c -> P (exec env candidates sched c).
Proof.
  intros Hstep sched. unfold exec.
  induction sched as [|tid rest IH]; intros c Hc; simpl.
  - exact Hc.
  - apply IH. now apply Hstep.
Qed.

(** The main thread always gets to its [return]. *)
Lemma caller_step_budget (c : config) :
  caller_done c = false ->
  caller_budget env candidates (caller_step env candidates c)
  < caller_budget env candidates c.
Proof.
  unfold caller_done, caller_budget, caller_step.
  destruct (mpc c) as [k|n| | | | |r] eqn:Hpc; intros Hdone;
    try discriminate Hdone.
  - destruct (nth_error candidates k) as [p|] eqn:Hk; simpl.
    + assert (k < length candidates)
        by (apply nth_error_Some; congruence).
      lia.
    + lia.
  - destruct (found_flag c); simpl; [lia|].
    destruct n; simpl; lia.
  - destruct (truthy (found_port c)); simpl; lia.
  - simpl. lia.
  - simpl. lia.
  - simpl. lia.
Qed.

Lemma caller_done_stays (c : config) :
  caller_done c = true -> caller_step env candidates c = c.
Proof.
  unfold caller_done, caller_step. now destruct (mpc c).
Qed.

Lemma run_caller_done (fuel : nat) :
  forall c,
    caller_budget env candidates c <= fuel ->
    caller_done (run_caller env candidates fuel c) = true.
Proof.
  induction fuel as [|f IH]; intros c Hb; simpl.
  - unfold caller_done, caller_budget in *.
    destruct (mpc c); try lia; reflexivity.
  - destruct (caller_done c) eqn:Hd.
    + rewrite (caller_done_stays c Hd). apply IH.
      unfold caller_done, caller_budget in *. destruct (mpc c);
        try discriminate Hd. lia.
    + apply IH. pose proof (caller_step_budget c Hd). lia.
Qed.

Lemma run_until_return_done (sched : list nat) :
  forall c, caller_done (run_until_return env candidates sched c) = true.
Proof.
  induction sched as [|tid rest IH]; intros c; simpl.
  - now apply run_caller_done.
  - destruct (caller_done c) eqn:Hd; [exact Hd | apply IH].
Qed.

(** A step of a worker thread leaves the main thread where it is and only
    adds events. *)
Lemma test_port_frame (port : text) (pc : worker_pc) (c : config) :
  mpc (fst (test_port env port pc c)) = mpc c
  /\ exists t, events (fst (test_port env port pc c)) = events c ++ t.
Proof.
  destruct pc; simpl.
  - destruct (found_flag c); split; try reflexivity; exists [];
      now rewrite app_nil_r.
  - destruct (at_reply env port) as [| | |resp]; simpl;
      try (split; [reflexivity | eexists; reflexivity]).
    destruct (bytes_contains _ resp); simpl;
      split; try reflexivity; eexists; reflexivity.
  - destruct (found_flag c); simpl; split; try reflexivity;
      [eexists; reflexivity | exists []; now rewrite app_nil_r].
  - split; [reflexivity | exists []; simpl; now rewrite app_nil_r].
  - split; [reflexivity | exists []; simpl; now rewrite app_nil_r].
  - split; [reflexivity | eexists; reflexivity].
  - split; [reflexivity | exists []; now rewrite app_nil_r].
Qed.

Lemma test_port_slot (port : text) (pc : worker_pc) (c : config) :
  found_port c <> None ->
  found_port (fst (test_port env port pc c)) <> None.
Proof.
  intros H. destruct pc; simpl; try exact H; try discriminate.
  - now destruct (found_flag c).
  - destruct (at_reply env port) as [| | |resp]; simpl; try exact H.
    now destruct (bytes_contains _ resp).
  - now destruct (found_flag c).
Qed.

Lemma Forall_set_nth {A} (P : A -> Prop) (i : nat) (a : A) (l : list A) :
  Forall P l -> P a -> Forall P (set_nth i a l).
Proof.
  intros Hl Ha. revert i. induction Hl as [|b l Hb Hl IH]; intros i.
  - destruct i; constructor.
  - destruct i; simpl; constructor; auto.
Qed.

(** What a step of a worker thread does to the shared store. *)
Lemma test_port_store (port : text) (pc : worker_pc) (c : config) :
  let c' := fst (test_port env port pc c) in
  let pc' := snd (test_port env port pc c) in
  workers c' = workers c
  /\ (found_port c' = found_port c /\ stores c' = stores c
      \/ pc = WStore /\ found_port c' = Some port
         /\ stores c' = stores c ++ [port])
  /\ (past_probe pc' = true ->
      past_probe pc = true \/ answers_ok env port = true).
Proof.
  unfold answers_ok. destruct pc; simpl.
  - destruct (found_flag c); simpl; repeat split; auto; discriminate.
  - destruct (at_reply env port) as [| | |resp]; simpl;
      try (repeat split; auto; discriminate).
    destruct (bytes_contains _ resp); simpl; repeat split; auto; discriminate.
  - destruct (found_flag c); simpl; repeat split; auto.
  - repeat split; auto.
  - repeat split; auto.
  - repeat split; auto; discriminate.
  - repeat split; auto.
Qed.

Lemma sound_step (c : config) (tid : nat) :
  sound env c -> sound env (step env candidates tid c).
Proof.
  intros (Hslot & Hstores & Hworkers). destruct tid as [|i]; simpl.
  - unfold caller_step.
    destruct (mpc c) as [k|n| | | | |r]; try (repeat split; assumption).
    + destruct (nth_error candidates k) as [p|];
        [|repeat split; assumption].
      repeat split; try assumption. simpl.
      apply Forall_app. split; [assumption|].
      constructor; [discriminate | constructor].
    + destruct (found_flag c); [repeat split; assumption|].
      destruct n; repeat split; assumption.
    + destruct (truthy (found_port c)); repeat split; assumption.
  - destruct (nth_error (workers c) i) as [w|] eqn:Hw;
      [|repeat split; assumption].
    pose proof (test_port_store (w_port w) (w_pc w) c)
      as (Hws & Hst & Hpc).
    assert (Hin : past_probe (w_pc w) = true ->
                  answers_ok env (w_port w) = true).
    { rewrite Forall_forall in Hworkers. apply Hworkers.
      eapply nth_error_In. exact Hw. }
    destruct (test_port env (w_port w) (w_pc w) c) as [c' pc'].
    cbn [fst snd] in Hws, Hst, Hpc. unfold sound. simpl.
    split; [|split].
    + destruct Hst as [[-> _] | (Hpc0 & -> & _)]; [exact Hslot|].
      intros x [= <-]. apply Hin. now rewrite Hpc0.
    + destruct Hst as [[_ ->] | (Hpc0 & _ & ->)]; [exact Hstores|].
      apply Forall_app. split; [exact Hstores|].
      constructor; [|constructor]. apply Hin. now rewrite Hpc0.
    + rewrite Hws. apply Forall_set_nth; [exact Hworkers|].
      simpl. intros Hpast. destruct (Hpc Hpast) as [H|H]; auto.
Qed.

Lemma settled_app (t u : list event) : settled t -> settled (t ++ u).
Proof.
  intros (pre & mid & ->). exists pre, (mid ++ u).
  now rewrite <- app_assoc.
Qed.

Lemma settled_and_read_app (t u : list event) :
  settled_and_read env t -> settled_and_read env (t ++ u).
Proof.
  intros (pre & mid & q & post & Hq & ->). exists pre, mid, q, (post ++ u).
  split; [exact Hq|].
  rewrite <- !app_assoc. simpl. now rewrite <- !app_assoc.
Qed.

Lemma progress_step (c : config) (tid : nat) :
  sound env c -> progress env c -> progress env (step env candidates tid c).
Proof.
  intros (Hsound & _ & _) Hc. destruct tid as [|i]; simpl.
  - (* the main thread *)
    unfold caller_step, progress in *.
    destruct (mpc c) as [k|n| | | | |r] eqn:Hpc.
    + now destruct (nth_error candidates k).
    + destruct (found_flag c); [exact I|]. now destruct n.
    + destruct (truthy (found_port c)) eqn:Ht; simpl; [|exact I].
      destruct (found_port c); [discriminate | discriminate Ht].
    + simpl. split; [exact Hc|]. now exists (events c), [].
    + simpl. destruct Hc as [Hslot (pre & mid & Hev)].
      destruct (found_port c) as [q|] eqn:Hq; [|now contradiction Hslot].
      exists pre, mid, q, []. split; [now apply Hsound|].
      rewrite Hev, app_nil_r. now rewrite <- app_assoc.
    + simpl. destruct (found_port c) as [p|]; [|exact I].
      split; [now apply Hsound | exact Hc].
    + rewrite Hpc. exact Hc.
  - (* the thread of candidate [i] *)
    destruct (nth_error (workers c) i) as [w|]; [|exact Hc].
    pose proof (test_port_frame (w_port w) (w_pc w) c) as [Hm [t Ht]].
    pose proof (test_port_slot (w_port w) (w_pc w) c) as Hs.
    destruct (test_port env (w_port w) (w_pc w) c) as [c' pc'].
    simpl in Hm, Ht, Hs. unfold progress in *. simpl.
    rewrite Hm, Ht.
    destruct (mpc c) as [k|n| | | | |[r|]]; try exact I.
    * now apply Hs.
    * destruct Hc as [Hslot Hset]. split; [now apply Hs|].
      now apply settled_app.
    * now apply settled_and_read_app.
    * destruct Hc as [Hr Hc]. split; [exact Hr|].
      now apply settled_and_read_app.
Qed.

Lemma sound_progress_step (c : config) (tid : nat) :
  sound env c /\ progress env c ->
  sound env (step env candidates tid c)
  /\ progress env (step env candidates tid c).
Proof.
  intros [Hs Hp]. split; [now apply sound_step | now apply progress_step].
Qed.

Lemma sound_init : sound env init_config.
Proof.
  repeat split; try constructor. discriminate.
Qed.

End Threads.

(** Whenever [detect_at_port] returns a port, the port answered OK, and the
    run has slept the 0.2 s of the settle delay and, after that, done the
    telemetry exchange of [get_signal_strength] on the port [q] that the
    slot held at the call, a port that answered OK as well. *)
Lemma detect_at_port_settles_and_reads (env : detect_env) (p : text) :
  detected env = Some p ->
  answers_ok env p = true
  /\ exists pre mid q post,
       answers_ok env q = true
       /\ trace (detect_at_port env)
          = pre ++ ESleep 200%N :: mid
            ++ trace (get_signal_strength (Some q) (signal_reply env (Some q)))
            ++ post.
Proof.
  unfold detected, detect_at_port.
  rewrite (bind_ok _ _ tt) by reflexivity. cbn [outcome snd trace fst log emit].
  destruct (get_quectel_ports (by_id env)) as [|c0 cs] eqn:Hc;
    [discriminate|].
  set (cands := c0 :: cs). cbn [outcome snd trace fst].
  set (c := run_until_return env cands (schedule env) init_config).
  intros Hret.
  assert (Hp : sound env c /\ progress env c)
    by (apply run_until_return_inv;
        [intros; now apply sound_progress_step
        | split; [apply sound_init | exact I]]).
  destruct Hp as [_ Hp].
  assert (Hd : caller_done c = true) by apply run_until_return_done.
  unfold returned in Hret. unfold progress in Hp. unfold caller_done in Hd.
  destruct (mpc c) as [| | | | | |r]; try discriminate Hd.
  simpl in Hret. subst r.
  destruct Hp as (Hok & pre & mid & q & post & Hq & Hev).
  split; [exact Hok|].
  exists (ELog LogDetecting :: pre), mid, q, post.
  split; [exact Hq|]. rewrite Hev. reflexivity.
Qed.

(** So the race needs two ports that answer: when at most one does, the
    port returned is the port whose signal was read. *)
Lemma single_responder_reads_returned_port (env : detect_env) (p : text) :
  single_responder env ->
  detected env = Some p ->
  exists pre mid post,
    trace (detect_at_port env)
    = pre ++ ESleep 200%N :: mid
      ++ trace (get_signal_strength (Some p) (signal_reply env (Some p)))
      ++ post.
Proof.
  intros Hone Hret.
  destruct (detect_at_port_settles_and_reads env p Hret)
    as (Hp & pre & mid & q & post & Hq & Hev).
  rewrite (Hone q p Hq Hp) in Hev. now exists pre, mid, post.
Qed.

(** And every value ever stored in the slot is that one port. *)
Lemma single_responder_stores_one_port (env : detect_env)
  (candidates : list text) (sched : list nat) (x y : text) :
  single_responder env ->
  In x (stores (exec env candidates sched init_config)) ->
  In y (stores (exec env candidates sched init_config)) ->
  x = y.
Proof.
  intros Hone Hx Hy.
  assert (Hs : sound env (exec env candidates sched init_config))
    by (apply exec_inv; [intros; now apply sound_step | apply sound_init]).
  destruct Hs as (_ & Hstores & _). rewrite Forall_forall in Hstores.
  apply Hone; now apply Hstores.
Qed.

(** C2. The slot is not write-once. With two candidates that both answer
    OK, let each thread pass [if not found_flag.is_set()] before the other
    reaches [found_flag.set()]. The first thread then sets the flag and
    stores [/dev/ttyUSB2]; the second, already past its test, stores
    [/dev/ttyUSB3] over it: two ports are stored in the slot, and the value
    claimed first is overwritten by the later success. *)
Theorem found_port_is_overwritten :
  let env := env_two_ports [] in
  let candidates := get_quectel_ports (by_id env) in
  let claimed := exec env candidates sched_first_claims init_config in
  let final := exec env candidates sched_second_overwrites init_config in
  candidates = [usb2; usb3]
  /\ found_flag claimed = true
  /\ found_port claimed = Some usb2
  /\ stores claimed = [usb2]
  /\ found_port final = Some usb3
  /\ stores final = [usb2; usb3].
Proof.
  vm_compute. repeat split.
Qed.

(** C9. The port that [detect_at_port] returns is not always the port whose
    signal it has read. In the race of C2 let the second thread store its
    port after the main thread has called [get_signal_strength] and before it
    executes [return found_port[0]]: the telemetry exchange is done on
    [/dev/ttyUSB2], the port returned is [/dev/ttyUSB3], on which no
    exchange was done. *)
Theorem detect_returns_port_it_did_not_read :
  let run := detect_at_port (env_two_ports sched_overwrite_before_return) in
  outcome run = Ok (Some usb3)
  /\ written_to qeng_cmd (trace run) = [usb2].
Proof.
  vm_compute. split; reflexivity.
Qed.

(** ** The run of [main] *)

Lemma check_connectivity_returns (env : check_env) :
  outcome (check_connectivity_parallel env) = Ok (connected env).
Proof.
  unfold connected. now rewrite check_connectivity_outcome.
Qed.

Lemma restart_connection_returns (env : restart_env) :
  outcome (restart_connection env) = Ok tt.
Proof.
  destruct env as [[] [] []]; reflexivity.
Qed.

(** [netdiag_log] raises only when the diagnostics file cannot be
    written. *)
Lemma netdiag_log_outcome (interface : text) (env : netdiag_env) :
  outcome (call_netdiag_log [interface] env)
  = if append_fails env then Raise OSError else Ok tt.
Proof.
  netdiag_cases env; reflexivity.
Qed.

Lemma netdiag_log_returns (interface : text) (env : netdiag_env) :
  append_fails env = false ->
  outcome (call_netdiag_log [interface] env) = Ok tt.
Proof.
  intros H. now rewrite netdiag_log_outcome, H.
Qed.

Lemma netdiag_log_raises (interface : text) (env : netdiag_env) :
  append_fails env = true ->
  outcome (call_netdiag_log [interface] env) = Raise OSError.
Proof.
  intros H. now rewrite netdiag_log_outcome, H.
Qed.

Lemma fail_safe_raises (at_port : pyport) (env : failsafe_env) :
  outcome (fail_safe at_port env) = Raise (fail_safe_error env).
Proof.
  destruct (fail_safe_run at_port env) as (rest & d & r & Hq & Hc & Hrun & _).
  rewrite Hrun.
  unfold fail_safe_error, written_resolv_conf, resolv_conf_of, queried.
  now rewrite Hq, Hc.
Qed.

(** Phase 2, by the value that the port detection of the tier returns. *)
Lemma failsafe_tier_run (w : world) :
  failsafe_tier w
  = if truthy (detected (w_detect1 w)) then
      (trace (detect_at_port (w_detect1 w))
       ++ trace (fail_safe (detected (w_detect1 w)) (w_failsafe w)),
       Raise (fail_safe_error (w_failsafe w)))
    else if append_fails (w_gateway1 w) then
      (trace (detect_at_port (w_detect1 w))
       ++ trace (call_netdiag_log [txt "usb0"] (w_gateway1 w)),
       Raise OSError)
    else
      (trace (detect_at_port (w_detect1 w))
       ++ trace (call_netdiag_log [txt "usb0"] (w_gateway1 w))
       ++ [ELog LogNoAtPort],
       Ok false).
Proof.
  unfold failsafe_tier.
  rewrite (bind_ok _ _ _ (detect_at_port_returns (w_detect1 w))).
  destruct (truthy (detected (w_detect1 w))).
  - rewrite (bind_raise _ _ _ (fail_safe_raises _ _)). reflexivity.
  - destruct (append_fails (w_gateway1 w)) eqn:Ha.
    + rewrite (bind_raise _ _ _ (netdiag_log_raises _ _ Ha)). reflexivity.
    + rewrite (bind_ok _ _ _ (netdiag_log_returns _ _ Ha)). reflexivity.
Qed.

(** The run of [main] after its first detection: an [OSError] of the
    diagnostics of [wwan0] ends it before the restart, an [OSError] of the
    diagnostics of [usb0] before the reboot is logged. *)
Lemma main_after_detect_run (at_port : pyport) (w : world) :
  main_after_detect at_port w
  = let gate := trace (check_connectivity_parallel (w_check0 w)) in
    if connected (w_check0 w) then (gate ++ [ELog LogSystemOnline], Ok tt)
    else if append_fails (w_gateway0 w) then
      (gate ++ ELog LogConnectivityMissing
            :: trace (call_netdiag_log [txt "wwan0"] (w_gateway0 w)),
       Raise OSError)
    else if connected (w_check1 w) then
      (gate ++ soft_restart_trace w ++ [ELog LogRestoredAfterRestart], Ok tt)
    else if truthy (detected (w_detect1 w)) then
      (gate ++ soft_restart_trace w
       ++ trace (detect_at_port (w_detect1 w))
       ++ trace (fail_safe (detected (w_detect1 w)) (w_failsafe w)),
       Raise (fail_safe_error (w_failsafe w)))
    else if append_fails (w_gateway1 w) then
      (gate ++ soft_restart_trace w
       ++ trace (detect_at_port (w_detect1 w))
       ++ trace (call_netdiag_log [txt "usb0"] (w_gateway1 w)),
       Raise OSError)
    else
      (gate ++ soft_restart_trace w
       ++ trace (detect_at_port (w_detect1 w))
       ++ trace (call_netdiag_log [txt "usb0"] (w_gateway1 w))
       ++ [ELog LogNoAtPort; ELog LogRebooting],
       Ok tt).
Proof.
  unfold main_after_detect, soft_restart_trace. cbv zeta.
  rewrite (bind_ok _ _ _ (check_connectivity_returns (w_check0 w))).
  destruct (connected (w_check0 w)); [reflexivity|].
  rewrite (bind_ok (log LogConnectivityMissing) _ tt eq_refl).
  destruct (append_fails (w_gateway0 w)) eqn:Ha.
  { rewrite (bind_raise _ _ _ (netdiag_log_raises _ _ Ha)). reflexivity. }
  rewrite (bind_ok _ _ _ (netdiag_log_returns (txt "wwan0") _ Ha)).
  rewrite (bind_ok _ _ _ (restart_connection_returns (w_restart w))).
  rewrite (bind_ok _ _ _ (check_connectivity_returns (w_check1 w))).
  destruct (connected (w_check1 w)).
  - cbn [trace outcome fst snd log emit app]. now rewrite <- !app_assoc.
  - rewrite failsafe_tier_run.
    destruct (truthy (detected (w_detect1 w)));
      [|destruct (append_fails (w_gateway1 w))];
      cbn [bind trace outcome fst snd log emit app];
      rewrite <- ?app_assoc; cbn [app]; rewrite <- ?app_assoc;
      reflexivity.
Qed.

Lemma main_run (w : world) :
  main w
  = (ELog LogBanner :: ELog LogStarting
       :: trace (detect_at_port (w_detect0 w))
       ++ trace (main_after_detect (detected (w_detect0 w)) w),
     outcome (main_after_detect (detected (w_detect0 w)) w)).
Proof.
  unfold main.
  rewrite (bind_ok (log LogBanner) _ tt eq_refl).
  rewrite (bind_ok (log LogStarting) _ tt eq_refl).
  rewrite (bind_ok _ _ _ (detect_at_port_returns (w_detect0 w))).
  reflexivity.
Qed.

(** ** Where [fail_safe] can be entered *)

Lemma quiet_app (t u : list event) : quiet (t ++ u) = quiet t && quiet u.
Proof. apply forallb_app. Qed.

Lemma quiet_not_in (t : list event) :
  quiet t = true -> ~ In (ELog LogEnterFailSafe) t.
Proof.
  unfold quiet. rewrite forallb_forall. intros H Hin.
  specialize (H _ Hin). discriminate H.
Qed.

Lemma signal_log_kind (resp : text) :
  match signal_log resp with
  | LogSignalUnexpected | LogSignalIncomplete _ | LogSignalQuality _
  | LogSignalError _ => True
  | _ => False
  end.
Proof.
  unfold signal_log.
  destruct (negb (contains qeng_marker resp)); [exact I|].
  destruct (length (findall_numbers resp) <? 4); [exact I|].
  now destruct (int_accepts _ && int_accepts _ && int_accepts _).
Qed.

Lemma get_signal_strength_quiet (port : pyport) (io : serial_session) :
  quiet (trace (get_signal_strength port io)) = true.
Proof.
  destruct port as [p|]; [|reflexivity].
  destruct io as [| | |resp]; try reflexivity.
  rewrite get_signal_strength_run. cbv zeta.
  pose proof (signal_log_kind (decode_ignore resp)) as Hk.
  destruct (signal_log (decode_ignore resp)); try contradiction; reflexivity.
Qed.

Section QuietThreads.

Variable env : detect_env.
Variable candidates : list text.

Lemma test_port_quiet (port : text) (pc : worker_pc) (c : config) :
  quiet (events c) = true ->
  quiet (events (fst (test_port env port pc c))) = true.
Proof.
  intros H. destruct pc; simpl; try exact H;
    try (rewrite quiet_app, H; reflexivity).
  - now destruct (found_flag c).
  - destruct (at_reply env port) as [| | |resp]; simpl;
      try (rewrite quiet_app, H; reflexivity).
    destruct (bytes_contains _ resp); simpl; rewrite quiet_app, H; reflexivity.
  - destruct (found_flag c); simpl; [|exact H].
    rewrite quiet_app, H; reflexivity.
Qed.

Lemma step_quiet (c : config) (tid : nat) :
  quiet (events c) = true ->
  quiet (events (step env candidates tid c)) = true.
Proof.
  intros H. destruct tid as [|i]; simpl.
  - unfold caller_step. destruct (mpc c) as [k|n| | | | |r]; simpl;
      try exact H; try (rewrite quiet_app, H; reflexivity).
    + now destruct (nth_error candidates k).
    + destruct (found_flag c); [exact H|].
      destruct n; simpl; [exact H|]. rewrite quiet_app, H; reflexivity.
    + destruct (truthy (found_port c)); simpl; [exact H|].
      rewrite quiet_app, H; reflexivity.
    + rewrite quiet_app, H. apply get_signal_strength_quiet.
  - destruct (nth_error (workers c) i) as [w|]; [|exact H].
    pose proof (test_port_quiet (w_port w) (w_pc w) c H) as Hw.
    destruct (test_port env (w_port w) (w_pc w) c) as [c' pc'].
    exact Hw.
Qed.

End QuietThreads.

Lemma detect_at_port_quiet (env : detect_env) :
  quiet (trace (detect_at_port env)) = true.
Proof.
  unfold detect_at_port.
  rewrite (bind_ok _ _ tt) by reflexivity. cbn [trace fst log emit app].
  destruct (get_quectel_ports (by_id env)) as [|c0 cs]; [reflexivity|].
  cbn [trace fst]. unfold quiet. cbn [forallb is_entry negb andb].
  apply (run_until_return_inv env (c0 :: cs)
           (fun c => quiet (events c) = true));
    [intros; now apply step_quiet | reflexivity].
Qed.

Lemma check_loop_quiet (completed : list future) :
  Forall (fun f => quiet (fst (snd f)) = true) completed ->
  forall dns_ok ping_ok,
    quiet (trace (check_loop dns_ok ping_ok completed)) = true.
Proof.
  induction 1 as [|[k [t o]] rest Ht Hrest IH]; intros d p; [reflexivity|].
  cbn [check_loop fst snd] in *.
  rewrite (bind_ok _ _ tt) by now rewrite emit_all_run.
  rewrite emit_all_run. cbn [trace fst]. rewrite quiet_app, Ht.
  destruct o as [result|e].
  - match goal with
    | |- context [if ?b then _ else _] => destruct b
    end; [|apply IH].
    rewrite (bind_ok _ _ tt) by reflexivity.
    rewrite (bind_ok _ _ tt) by now rewrite emit_all_run.
    rewrite emit_all_run. cbn [trace fst log emit ret].
    rewrite !quiet_app.
    change (quiet []) with true. rewrite andb_true_r.
    apply andb_true_iff. split; [reflexivity|].
    apply andb_true_iff. split; [reflexivity|].
    clear -Hrest. induction Hrest as [|f l Hf Hl IHl]; [reflexivity|].
    cbn [flat_map]. now rewrite quiet_app, Hf, IHl.
  - rewrite (bind_ok _ _ tt) by reflexivity.
    cbn [trace fst log emit]. rewrite quiet_app, IH. reflexivity.
Qed.

Lemma submitted_quiet (env : check_env) :
  Forall (fun f => quiet (fst (snd f)) = true) (submitted env).
Proof.
  unfold submitted. apply Forall_app. split; apply Forall_map, Forall_forall;
    intros h _; cbn [fst snd].
  - destruct (dns_of env h) as [| |e]; try reflexivity. now destruct e.
  - destruct (ping_of env h) as [rc|e]; [|reflexivity].
    unfold check_ping_host, run_ping. simpl. now destruct (rc =? 0)%Z.
Qed.

Lemma check_connectivity_quiet (env : check_env) :
  quiet (trace (check_connectivity_parallel env)) = true.
Proof.
  unfold check_connectivity_parallel.
  rewrite (bind_ok _ _ tt) by reflexivity. cbn [trace fst log emit app].
  assert (Hq : quiet (trace (check_loop false false
                  (as_completed (finish_time env) (submitted env)))) = true).
  { apply check_loop_quiet.
    eapply Permutation_Forall;
      [apply Permutation_sym, as_completed_perm | apply submitted_quiet]. }
  destruct (check_loop false false
              (as_completed (finish_time env) (submitted env)))
    as [t [[[]|]|e]]; cbn [trace fst] in Hq |- *; simpl;
    rewrite ?quiet_app, ?app_nil_r, ?Hq; try exact Hq; reflexivity.
Qed.

Lemma restart_connection_quiet (env : restart_env) :
  quiet (trace (restart_connection env)) = true.
Proof.
  destruct env as [[] [] []]; reflexivity.
Qed.

Lemma netdiag_log_quiet (interface : text) (env : netdiag_env) :
  quiet (trace (call_netdiag_log [interface] env)) = true.
Proof.
  netdiag_cases env; reflexivity.
Qed.

Lemma soft_restart_quiet (w : world) : quiet (soft_restart_trace w) = true.
Proof.
  unfold soft_restart_trace.
  change (quiet ([ELog LogConnectivityMissing]
                 ++ trace (call_netdiag_log [txt "wwan0"] (w_gateway0 w))
                 ++ trace (restart_connection (w_restart w))
                 ++ trace (check_connectivity_parallel (w_check1 w))) = true).
  now rewrite !quiet_app, netdiag_log_quiet, restart_connection_quiet,
    check_connectivity_quiet.
Qed.

(** ** The watchdog *)

(** C1. An error inside [fail_safe] does abort the run. [fail_safe] calls
    [netdiag_log()] without the interface that the function requires; the
    call raises [TypeError], which neither [fail_safe] nor [main] catches.
    So in every run in which both connectivity checks fail (the diagnostics
    of [wwan0] having been written between them) and the port detection of
    the fail-safe tier returns a port, [main] ends with an uncaught
    [TypeError]; the last thing it does is to write [resolv.conf]: the
    recheck after the fail-safe and the reboot phase are never reached.
    (When the text for [resolv.conf] holds a NUL character the run ends one
    statement earlier, in the uncaught [ValueError] of the command that was
    to write it.) *)
Theorem fail_safe_aborts_the_run :
  forall w : world,
    connected (w_check0 w) = false ->
    append_fails (w_gateway0 w) = false ->
    connected (w_check1 w) = false ->
    truthy (detected (w_detect1 w)) = true ->
    outcome (main w) = Raise (fail_safe_error (w_failsafe w))
    /\ (exists pre,
          trace (main w)
          = pre ++ trace (fail_safe (detected (w_detect1 w)) (w_failsafe w)))
    /\ (exists pre resolv_conf,
          trace (main w) = pre ++ [ERun (tee_cmd resolv_conf)]).
Proof.
  intros w H0 Ha H1 Hp.
  rewrite main_run, main_after_detect_run. cbv zeta.
  rewrite H0, Ha, H1, Hp. cbn [trace outcome fst snd].
  split; [reflexivity|].
  assert (Hfs : exists pre,
            ELog LogBanner :: ELog LogStarting
              :: trace (detect_at_port (w_detect0 w))
              ++ trace (check_connectivity_parallel (w_check0 w))
              ++ soft_restart_trace w
              ++ trace (detect_at_port (w_detect1 w))
              ++ trace (fail_safe (detected (w_detect1 w)) (w_failsafe w))
            = pre ++ trace (fail_safe (detected (w_detect1 w)) (w_failsafe w))).
  { do 2 apply suffix_cons. do 4 apply suffix_app. apply suffix_refl. }
  split; [exact Hfs|].
  destruct Hfs as [pre ->].
  destruct (fail_safe_run (detected (w_detect1 w)) (w_failsafe w))
    as (rest & d & rc & _ & _ & Hrun & pre' & Hrest).
  exists (pre ++ ELog LogEnterFailSafe :: pre' ++ trace (choose_resolv_conf d)),
         rc.
  rewrite Hrun, Hrest. cbn [trace fst].
  rewrite <- !app_assoc. cbn [app]. now rewrite <- !app_assoc.
Qed.

(** The theorem in a world where the link stays down and the modem answers
    on [/dev/ttyUSB2]. *)
Lemma fail_safe_aborts_the_run_witness :
  outcome (main world_fail_safe) = Raise TypeError
  /\ (exists pre,
        trace (main world_fail_safe)
        = pre ++ trace (fail_safe (detected (w_detect1 world_fail_safe))
                          (w_failsafe world_fail_safe)))
  /\ (exists pre resolv_conf,
        trace (main world_fail_safe) = pre ++ [ERun (tee_cmd resolv_conf)]).
Proof.
  apply (fail_safe_aborts_the_run world_fail_safe); reflexivity.
Defined.

Lemma main_quiet (w : world) (rest : list event) :
  quiet rest = true ->
  quiet (ELog LogBanner :: ELog LogStarting
           :: trace (detect_at_port (w_detect0 w))
           ++ trace (check_connectivity_parallel (w_check0 w))
           ++ rest) = true.
Proof.
  intros Hrest.
  change (quiet ([ELog LogBanner; ELog LogStarting]
                 ++ trace (detect_at_port (w_detect0 w))
                 ++ trace (check_connectivity_parallel (w_check0 w))
                 ++ rest) = true).
  now rewrite !quiet_app, detect_at_port_quiet, check_connectivity_quiet,
    Hrest.
Qed.

(** The failing input of C6. Let both checks fail, let no modem be found,
    and let the diagnostics file be written for [wwan0] but not for [usb0]
    (the disk fills up in between). The port detection of the fail-safe tier
    returns none and the run starts the dump of [usb0], but it does not
    proceed to the reboot phase: the append raises [OSError], which nothing
    catches, and [main] ends there without the line of the reboot. *)
Lemma reboot_claim_fails_when_diagnostics_are_not_written :
  connected (w_check0 world_disk_full) = false
  /\ connected (w_check1 world_disk_full) = false
  /\ detected (w_detect1 world_disk_full) = None
  /\ outcome (main world_disk_full) = Raise OSError
  /\ ~ In (ELog LogRebooting) (trace (main world_disk_full)).
Proof.
  repeat split; try reflexivity.
  vm_compute. intuition discriminate.
Qed.

(** C6. In every run of [main]:
    - [fail_safe] is invoked only when both connectivity checks have failed
      and the port detection of the fail-safe tier has returned a port (a
      non-empty path), and its events follow those of that detection;
    - when that detection is reached and returns no port, [fail_safe] is not
      invoked: the run dumps the diagnostics of [usb0] and then, if the
      diagnostics file could be written, logs that no AT port is available,
      logs the reboot and returns.
    The second part has a gap. [netdiag_log] guards its commands with [try]
    and leaves the append to the diagnostics file outside: when the append
    raises, the run ends in that [OSError] right after the dump, and the
    reboot phase is not reached. *)
Theorem fail_safe_only_with_detected_port :
  forall w : world,
    (In (ELog LogEnterFailSafe) (trace (main w)) ->
     connected (w_check0 w) = false
     /\ connected (w_check1 w) = false
     /\ exists p,
          outcome (detect_at_port (w_detect1 w)) = Ok (Some p)
          /\ p <> []
          /\ exists pre,
               trace (main w)
               = pre ++ trace (detect_at_port (w_detect1 w))
                 ++ trace (fail_safe (Some p) (w_failsafe w)))
    /\ (connected (w_check0 w) = false ->
        append_fails (w_gateway0 w) = false ->
        connected (w_check1 w) = false ->
        truthy (detected (w_detect1 w)) = false ->
        ~ In (ELog LogEnterFailSafe) (trace (main w))
        /\ outcome (main w)
           = (if append_fails (w_gateway1 w) then Raise OSError else Ok tt)
        /\ exists pre,
             trace (main w)
             = pre ++ trace (detect_at_port (w_detect1 w))
               ++ trace (netdiag_log (txt "usb0") (w_gateway1 w))
               ++ if append_fails (w_gateway1 w) then []
                  else [ELog LogNoAtPort; ELog LogRebooting]).
Proof.
  intros w. rewrite main_run, main_after_detect_run. cbv zeta.
  pose proof (soft_restart_quiet w) as Hsoft.
  pose proof (detect_at_port_quiet (w_detect1 w)) as Hgate.
  pose proof (netdiag_log_quiet (txt "usb0") (w_gateway1 w)) as Hdump.
  pose proof (netdiag_log_quiet (txt "wwan0") (w_gateway0 w)) as Hdump0.
  destruct (connected (w_check0 w));
    [|destruct (append_fails (w_gateway0 w));
      [|destruct (connected (w_check1 w));
        [|destruct (truthy (detected (w_detect1 w))) eqn:Hp;
          [|destruct (append_fails (w_gateway1 w))]]]];
    cbn [trace outcome fst snd];
    (split; [intros Hin | intros H0 Ha H1 Hnone]);
    try discriminate.
  - (* online at the first check *)
    exfalso. revert Hin. apply quiet_not_in, main_quiet. reflexivity.
  - (* the diagnostics of wwan0 are not written *)
    exfalso. revert Hin. apply quiet_not_in, main_quiet.
    change (quiet ([ELog LogConnectivityMissing]
                   ++ trace (call_netdiag_log [txt "wwan0"] (w_gateway0 w)))
            = true).
    now rewrite quiet_app, Hdump0.
  - (* online after the restart *)
    exfalso. revert Hin. apply quiet_not_in, main_quiet.
    now rewrite quiet_app, Hsoft.
  - (* the fail-safe tier, with a port *)
    split; [reflexivity|]. split; [reflexivity|].
    destruct (detected (w_detect1 w)) as [p|] eqn:Hd; [|discriminate Hp].
    exists p. rewrite detect_at_port_returns, Hd.
    split; [reflexivity|]. split; [now destruct p|].
    do 2 apply suffix_cons. do 3 apply suffix_app. apply suffix_refl.
  - (* without a port, the diagnostics of usb0 are not written *)
    exfalso. revert Hin. apply quiet_not_in, main_quiet.
    now rewrite !quiet_app, Hsoft, Hgate, Hdump.
  - split; [|split; [reflexivity|]].
    + apply quiet_not_in, main_quiet.
      now rewrite !quiet_app, Hsoft, Hgate, Hdump.
    + rewrite app_nil_r.
      do 2 apply suffix_cons. do 3 apply suffix_app. apply suffix_refl.
  - (* without a port, the reboot is logged *)
    exfalso. revert Hin. apply quiet_not_in, main_quiet.
    now rewrite !quiet_app, Hsoft, Hgate, Hdump.
  - split; [|split; [reflexivity|]].
    + apply quiet_not_in, main_quiet.
      now rewrite !quiet_app, Hsoft, Hgate, Hdump.
    + do 2 apply suffix_cons. do 3 apply suffix_app. apply suffix_refl.
Qed.

(** The theorem in a world where the link stays down and the modem answers
    on [/dev/ttyUSB2], and in one where no modem is found. *)
Lemma fail_safe_only_with_detected_port_witness :
  (In (ELog LogEnterFailSafe) (trace (main world_fail_safe))
   /\ connected (w_check0 world_fail_safe) = false
   /\ connected (w_check1 world_fail_safe) = false
   /\ exists p,
        outcome (detect_at_port (w_detect1 world_fail_safe)) = Ok (Some p)
        /\ p <> []
        /\ exists pre,
             trace (main world_fail_safe)
             = pre ++ trace (detect_at_port (w_detect1 world_fail_safe))
               ++ trace (fail_safe (Some p) (w_failsafe world_fail_safe)))
  /\ (truthy (detected (w_detect1 world_no_port)) = false
      /\ ~ In (ELog LogEnterFailSafe) (trace (main world_no_port))
      /\ outcome (main world_no_port) = Ok tt
      /\ exists pre,
           trace (main world_no_port)
           = pre ++ trace (detect_at_port (w_detect1 world_no_port))
             ++ trace (netdiag_log (txt "usb0") (w_gateway1 world_no_port))
             ++ [ELog LogNoAtPort; ELog LogRebooting]).
Proof.
  split.
  - assert (Hin : In (ELog LogEnterFailSafe) (trace (main world_fail_safe)))
      by (vm_compute; tauto).
    split; [exact Hin|].
    exact (proj1 (fail_safe_only_with_detected_port world_fail_safe) Hin).
  - split; [reflexivity|].
    apply (proj2 (fail_safe_only_with_detected_port world_no_port));
      reflexivity.
Defined.

(** C7, as the specification words it, fails: the run does not begin with
    the connectivity check. In a world where the link is up, [main] first
    detects the port and reads its signal, and only then runs the check that
    finds the system online. *)
Lemma main_does_not_start_at_check :
  ~ starts_at_check world_online
  /\ connected (w_check0 world_online) = true
  /\ written_to qeng_cmd (trace (main world_online)) = [usb2]
  /\ nth_error (trace (main world_online)) 2 = Some (ELog LogDetecting).
Proof.
  split; [|repeat split; reflexivity].
  intros [rest H]. vm_compute in H. discriminate H.
Qed.

(** C7, amended. Every run of [main] begins, after the two lines of the
    banner, with the port detection (the discovery and probing of
    [detect_at_port] and, when a port answers, the signal read), whatever
    the state of the link; the connectivity check is the next action. When
    the check succeeds the run logs that the system is online and returns;
    the diagnostics dump of [wwan0] and all that follows occur only after
    the check has failed. *)
Theorem main_starts_with_detection_then_check :
  forall w : world,
    exists rest,
      trace (main w)
      = ELog LogBanner :: ELog LogStarting
          :: trace (detect_at_port (w_detect0 w))
          ++ trace (check_connectivity_parallel (w_check0 w))
          ++ rest
      /\ if connected (w_check0 w)
         then rest = [ELog LogSystemOnline] /\ outcome (main w) = Ok tt
         else exists rest',
                rest = ELog LogConnectivityMissing
                         :: trace (netdiag_log (txt "wwan0") (w_gateway0 w))
                         ++ rest'.
Proof.
  intros w. rewrite main_run, main_after_detect_run. cbv zeta.
  destruct (connected (w_check0 w)).
  - eexists. split; [reflexivity|]. split; reflexivity.
  - destruct (append_fails (w_gateway0 w));
      [|destruct (connected (w_check1 w));
        [|destruct (truthy (detected (w_detect1 w)));
          [|destruct (append_fails (w_gateway1 w))]]];
      cbn [trace fst]; unfold soft_restart_trace;
      (eexists; split; [reflexivity|]);
      eexists; cbn [app call_netdiag_log]; rewrite <- ?app_assoc;
      try reflexivity.
    f_equal. symmetry. apply app_nil_r.
Qed.

(** C10. The value that the first [detect_at_port()] of [main] returns is
    never read: what [main] does after that call is the same for any two
    values of [at_port], and a run of [main] is the run of that call
    followed by the run of the rest with any value in its place. *)
Theorem initial_at_port_is_never_read :
  (forall (p q : pyport) (w : world),
     main_after_detect p w = main_after_detect q w)
  /\ (forall (p : pyport) (w : world),
        main w
        = (ELog LogBanner :: ELog LogStarting
             :: trace (detect_at_port (w_detect0 w))
             ++ trace (main_after_detect p w),
           outcome (main_after_detect p w))).
Proof.
  split; [reflexivity|].
  intros p w. apply main_run.
Qed.

(* ================================================================== *)
(** * Part III: further properties of the code                         *)
(* ================================================================== *)

(** ** Observations of a trace *)

Lemma logs_app (t u : list event) : logs (t ++ u) = logs t ++ logs u.
Proof.
  induction t as [|e t IH]; [reflexivity|].
  destruct e; simpl; now rewrite IH.
Qed.

Lemma runs_app (t u : list event) : runs (t ++ u) = runs t ++ runs u.
Proof.
  induction t as [|e t IH]; [reflexivity|].
  destruct e; simpl; now rewrite IH.
Qed.

Lemma sleeps_app (t u : list event) : sleeps (t ++ u) = sleeps t ++ sleeps u.
Proof.
  induction t as [|e t IH]; [reflexivity|].
  destruct e; simpl; now rewrite IH.
Qed.

Lemma touched_app (t u : list event) :
  touched (t ++ u) = touched t ++ touched u.
Proof.
  induction t as [|e t IH]; [reflexivity|].
  destruct e; simpl; now rewrite IH.
Qed.

Lemma written_to_app (cmd : bytes) (t u : list event) :
  written_to cmd (t ++ u) = written_to cmd t ++ written_to cmd u.
Proof.
  induction t as [|e t IH]; [reflexivity|].
  destruct e; simpl; try exact IH.
  destruct (bytes_eqb cmd0 cmd); simpl; now rewrite IH.
Qed.

Lemma serial_only_runs (t : list event) :
  forallb serial_only t = true -> runs t = [].
Proof.
  induction t as [|e t IH]; [reflexivity|].
  simpl. intros H. apply andb_true_iff in H as [He Ht].
  destruct e; try discriminate He; now apply IH.
Qed.

(** ** The detection stays within the candidates *)

Lemma get_signal_strength_serial (port : pyport) (io : serial_session) :
  forallb serial_only (trace (get_signal_strength port io)) = true
  /\ Forall (fun p => port = Some p)
       (touched (trace (get_signal_strength port io))).
Proof.
  destruct port as [p|]; [|split; [reflexivity | constructor]].
  destruct io as [| | |resp];
    try (split; [reflexivity | repeat constructor]).
  rewrite get_signal_strength_run. cbv zeta.
  destruct (signal_log (decode_ignore resp)); split; try reflexivity; repeat constructor.
Qed.

Lemma test_port_serial (env : detect_env) (port : text) (pc : worker_pc)
  (c : config) :
  exists t,
    events (fst (test_port env port pc c)) = events c ++ t
    /\ forallb serial_only t = true
    /\ Forall (fun p => p = port) (touched t).
Proof.
  destruct pc; simpl.
  - destruct (found_flag c); exists []; rewrite app_nil_r;
      repeat split; constructor.
  - destruct (at_reply env port) as [| | |resp]; simpl;
      try solve [eexists; repeat split; repeat constructor].
    destruct (bytes_contains _ resp); simpl; eexists; repeat split;
      repeat constructor.
  - destruct (found_flag c); simpl;
      [eexists; repeat split; repeat constructor|].
    exists []; rewrite app_nil_r; repeat split; constructor.
  - exists []; simpl; rewrite app_nil_r; repeat split; constructor.
  - exists []; simpl; rewrite app_nil_r; repeat split; constructor.
  - eexists; repeat split; repeat constructor.
  - exists []; rewrite app_nil_r; repeat split; constructor.
Qed.

Section Candidates.

Variable env : detect_env.
Variable candidates : list text.

Lemma within_init : within candidates init_config.
Proof.
  repeat split; try constructor. discriminate.
Qed.

Lemma within_step (c : config) (tid : nat) :
  within candidates c -> within candidates (step env candidates tid c).
Proof.
  intros (Hslot & Hworkers & Htouched & Hserial & Hdone).
  destruct tid as [|i]; simpl.
  - unfold caller_step.
    destruct (mpc c) as [k|n| | | | |r] eqn:Hpc.
    + destruct (nth_error candidates k) as [p|] eqn:Hk;
        [|repeat split; assumption].
      repeat split; try assumption. simpl.
      apply Forall_app. split; [assumption|].
      constructor; [|constructor]. simpl. eapply nth_error_In. exact Hk.
    + destruct (found_flag c); [repeat split; assumption|].
      destruct n; [repeat split; assumption|].
      repeat split; try assumption; simpl.
      * rewrite touched_app, app_nil_r. exact Htouched.
      * rewrite forallb_app, Hserial. reflexivity.
    + destruct (truthy (found_port c)); [repeat split; assumption|].
      repeat split; try assumption; simpl.
      * rewrite touched_app, app_nil_r. exact Htouched.
      * rewrite forallb_app, Hserial. reflexivity.
    + repeat split; try assumption; simpl.
      * rewrite touched_app, app_nil_r. exact Htouched.
      * rewrite forallb_app, Hserial. reflexivity.
    + destruct (get_signal_strength_serial (found_port c)
                  (signal_reply env (found_port c))) as [Hs Ht].
      repeat split; try assumption; simpl.
      * rewrite touched_app. apply Forall_app. split; [exact Htouched|].
        eapply Forall_impl; [|exact Ht]. intros p Hp. now apply Hslot.
      * rewrite forallb_app, Hserial. exact Hs.
    + repeat split; try assumption. simpl.
      destruct (found_port c) as [p|]; [now apply Hslot | exact I].
    + repeat split; try assumption. rewrite Hpc. exact Hdone.
  - destruct (nth_error (workers c) i) as [w|] eqn:Hw;
      [|repeat split; assumption].
    assert (Hin : In (w_port w) candidates).
    { rewrite Forall_forall in Hworkers. apply Hworkers.
      eapply nth_error_In. exact Hw. }
    pose proof (test_port_store env (w_port w) (w_pc w) c) as (Hws & Hst & _).
    pose proof (test_port_frame env (w_port w) (w_pc w) c) as [Hm _].
    pose proof (test_port_serial env (w_port w) (w_pc w) c)
      as (t & Ht & Hts & Htt).
    destruct (test_port env (w_port w) (w_pc w) c) as [c' pc'].
    cbn [fst snd] in Hws, Hst, Hm, Ht. unfold within. simpl.
    rewrite Hm, Ht. repeat split.
    + destruct Hst as [[-> _] | (_ & -> & _)]; [exact Hslot|].
      now intros x [= <-].
    + rewrite Hws. apply Forall_set_nth; [exact Hworkers | exact Hin].
    + rewrite touched_app. apply Forall_app. split; [exact Htouched|].
      eapply Forall_impl; [|exact Htt]. now intros p ->.
    + rewrite forallb_app, Hserial. exact Hts.
    + exact Hdone.
Qed.

End Candidates.

Lemma detect_at_port_within (env : detect_env) :
  forallb serial_only (trace (detect_at_port env)) = true
  /\ Forall (fun p => In p (get_quectel_ports (by_id env)))
       (touched (trace (detect_at_port env)))
  /\ (forall p, detected env = Some p ->
                In p (get_quectel_ports (by_id env))).
Proof.
  unfold detected, detect_at_port.
  rewrite (bind_ok _ _ tt) by reflexivity.
  cbn [outcome snd trace fst log emit app].
  destruct (get_quectel_ports (by_id env)) as [|c0 cs] eqn:Hc.
  - repeat split; try constructor. discriminate.
  - cbn [outcome snd trace fst].
    set (c := run_until_return env (c0 :: cs) (schedule env) init_config).
    assert (Hw : within (c0 :: cs) c)
      by (apply run_until_return_inv;
          [intros; now apply within_step | apply within_init]).
    destruct Hw as (_ & _ & Htouched & Hserial & Hdone).
    repeat split.
    + exact Hserial.
    + exact Htouched.
    + intros p Hp. unfold returned in Hp.
      destruct (mpc c) as [| | | | | |r]; try discriminate Hp.
      subst r. exact Hdone.
Qed.

(** X1. [detect_at_port] uses nothing but the serial ports of the candidates:
    its events are log lines, sleeps and serial events, it runs no command
    and writes no file, and every port it opens, writes to or closes is one
    that [get_quectel_ports] returned (the resolved path of an entry named
    after the modem). *)
Theorem detect_at_port_touches_candidates_only :
  forall env : detect_env,
    forallb serial_only (trace (detect_at_port env)) = true
    /\ runs (trace (detect_at_port env)) = []
    /\ Forall (fun p => In p (get_quectel_ports (by_id env)))
         (touched (trace (detect_at_port env))).
Proof.
  intros env. destruct (detect_at_port_within env) as (Hs & Ht & _).
  split; [exact Hs|]. split; [now apply serial_only_runs | exact Ht].
Qed.

(** X2. Whatever the threads do, a port returned by [detect_at_port] is one of
    the candidates and its answer to AT held OK. *)
Theorem detect_at_port_returns_candidate_that_answered :
  forall (env : detect_env) (p : text),
    detected env = Some p ->
    In p (get_quectel_ports (by_id env))
    /\ answers_ok env p = true.
Proof.
  intros env p Hp. split.
  - now apply (detect_at_port_within env).
  - now apply (detect_at_port_settles_and_reads env p).
Qed.

Lemma detect_at_port_returns_candidate_that_answered_witness :
  detected (env_two_ports sched_first_wins) = Some usb2
  /\ In usb2 (get_quectel_ports (by_id (env_two_ports sched_first_wins)))
  /\ answers_ok (env_two_ports sched_first_wins) usb2 = true.
Proof.
  split; [reflexivity|].
  apply (detect_at_port_returns_candidate_that_answered
           (env_two_ports sched_first_wins) usb2).
  reflexivity.
Defined.

(** ** No candidate, no answer *)

Lemma get_quectel_ports_in (entries : list by_id_entry) (p : text) :
  In p (get_quectel_ports entries)
  <-> exists e,
        In e entries
        /\ contains quectel_marker (entry_name e) = true
        /\ entry_realpath e = p.
Proof.
  induction entries as [|e rest IH]; simpl.
  - split; [intros [] | intros (e & [] & _)].
  - destruct (contains quectel_marker (entry_name e)) eqn:He; simpl;
      rewrite IH; split.
    + intros [<- | (e' & Hin & Hm & Hp)];
        [exists e | exists e']; auto.
    + intros (e' & [<- | Hin] & Hm & Hp); [now left|].
      right. now exists e'.
    + intros (e' & Hin & Hm & Hp). exists e'. auto.
    + intros (e' & [<- | Hin] & Hm & Hp); [congruence|].
      now exists e'.
Qed.

(** X3. When no entry of [/dev/serial/by-id] is named after the modem,
    [detect_at_port] logs that no device was found and returns [None] at
    once: it starts no thread, opens no port and does not wait. *)
Theorem detect_at_port_without_candidates :
  forall env : detect_env,
    (forall e, In e (by_id env) ->
               contains quectel_marker (entry_name e) = false) ->
    detect_at_port env = ([ELog LogDetecting; ELog LogNoDevices], Ok None).
Proof.
  intros env Hnone. unfold detect_at_port.
  destruct (get_quectel_ports (by_id env)) as [|p ps] eqn:Hc; [reflexivity|].
  assert (Hin : In p (get_quectel_ports (by_id env)))
    by (rewrite Hc; now left).
  apply get_quectel_ports_in in Hin as (e & He & Hm & _).
  rewrite (Hnone e He) in Hm. discriminate Hm.
Qed.

Lemma detect_at_port_without_candidates_witness :
  detect_at_port env_foreign = ([ELog LogDetecting; ELog LogNoDevices], Ok None).
Proof.
  apply (detect_at_port_without_candidates env_foreign).
  intros e [<- | []]. reflexivity.
Defined.

Lemma repeat_snoc {A} (x : A) (n : nat) : repeat x n ++ [x] = repeat x (S n).
Proof.
  induction n as [|n IH]; [reflexivity|].
  simpl. now rewrite IH.
Qed.

Section Idle.

Variable env : detect_env.
Variable candidates : list text.
Hypothesis silent : no_responder env candidates.

Lemma idle_init : idle env candidates init_config.
Proof.
  repeat split; constructor.
Qed.

(** A thread whose port does not answer OK ends right after its probe,
    having logged nothing. *)
Lemma test_port_idle (port : text) (pc : worker_pc) (c : config) :
  found_flag c = false ->
  answers_ok env port = false ->
  past_probe pc = false ->
  let c' := fst (test_port env port pc c) in
  found_flag c' = false
  /\ found_port c' = found_port c
  /\ past_probe (snd (test_port env port pc c)) = false
  /\ exists t,
       events c' = events c ++ t
       /\ logs t = [] /\ sleeps t = [] /\ written_to qeng_cmd t = [].
Proof.
  intros Hflag Hans Hpc. unfold answers_ok in Hans.
  destruct pc; try discriminate Hpc; simpl.
  - rewrite Hflag. repeat split; auto. exists []. now rewrite app_nil_r.
  - destruct (at_reply env port) as [| | |resp]; simpl in Hans |- *;
      try solve [repeat split; auto; eexists; repeat split; reflexivity].
    rewrite Hans. simpl.
    repeat split; auto; eexists; repeat split; reflexivity.
  - repeat split; auto. exists []. now rewrite app_nil_r.
Qed.

Lemma idle_step (c : config) (tid : nat) :
  idle env candidates c -> idle env candidates (step env candidates tid c).
Proof.
  intros (Hflag & Hslot & Hworkers & Hqeng & Hmain).
  destruct tid as [|i]; simpl.
  - unfold caller_step.
    destruct (mpc c) as [k|n| | | | |[r|]] eqn:Hpc; try contradiction.
    + destruct (nth_error candidates k) as [p|] eqn:Hk.
      * repeat split; try assumption; try apply Hmain. simpl.
        apply Forall_app. split; [assumption|].
        constructor; [|constructor]. simpl. split; [|reflexivity].
        eapply nth_error_In. exact Hk.
      * destruct Hmain as [Hl Hs].
        repeat split; try assumption; simpl; try lia.
        now rewrite Nat.sub_diag.
    + rewrite Hflag. destruct Hmain as (Hl & Hn & Hs).
      destruct n as [|n'].
      * repeat split; try assumption. simpl.
        now rewrite Nat.sub_0_r in Hs.
      * repeat split; try assumption; simpl.
        -- rewrite written_to_app, Hqeng. reflexivity.
        -- rewrite logs_app, Hl. reflexivity.
        -- lia.
        -- rewrite sleeps_app, Hs. simpl sleeps. rewrite repeat_snoc.
           f_equal. lia.
    + rewrite Hslot. simpl. destruct Hmain as [Hl Hs].
      repeat split; try assumption; simpl.
      * rewrite written_to_app, Hqeng. reflexivity.
      * rewrite logs_app, Hl. reflexivity.
      * rewrite sleeps_app, Hs. simpl. now rewrite app_nil_r.
    + unfold idle. rewrite Hpc. repeat split; try assumption; apply Hmain.
  - destruct (nth_error (workers c) i) as [w|] eqn:Hw;
      [|repeat split; assumption].
    assert (Hin : In (w_port w) candidates /\ past_probe (w_pc w) = false).
    { rewrite Forall_forall in Hworkers. apply Hworkers.
      eapply nth_error_In. exact Hw. }
    destruct Hin as [Hin Hpast].
    pose proof (test_port_idle (w_port w) (w_pc w) c Hflag
                  (silent _ Hin) Hpast)
      as (Hf' & Hs' & Hp' & t & Ht & Hl & Hsl & Hq).
    pose proof (test_port_store env (w_port w) (w_pc w) c) as (Hws & _ & _).
    pose proof (test_port_frame env (w_port w) (w_pc w) c) as [Hm _].
    destruct (test_port env (w_port w) (w_pc w) c) as [c' pc'].
    cbn [fst snd] in *. unfold idle. simpl.
    rewrite Hm, Ht, logs_app, sleeps_app, written_to_app, Hl, Hsl, Hq,
      !app_nil_r.
    repeat split; try assumption.
    + congruence.
    + rewrite Hws. apply Forall_set_nth; [exact Hworkers|].
      simpl. now split.
Qed.

End Idle.

(** X4. When the modem is there and none of its ports answers OK to AT, then
    for every scheduling of the threads [detect_at_port] waits the whole
    timeout (every 0.1 s sleep of the wait loop), never reads a signal, logs
    that no port answers and returns [None]. *)
Theorem detect_at_port_without_answer :
  forall env : detect_env,
    get_quectel_ports (by_id env) <> [] ->
    no_responder env (get_quectel_ports (by_id env)) ->
    outcome (detect_at_port env) = Ok None
    /\ logs (trace (detect_at_port env)) = [LogDetecting; LogNoResponsive]
    /\ sleeps (trace (detect_at_port env)) = repeat 100%N (polls env)
    /\ written_to qeng_cmd (trace (detect_at_port env)) = [].
Proof.
  intros env Hne Hsilent. unfold detect_at_port.
  rewrite (bind_ok _ _ tt) by reflexivity.
  cbn [outcome snd trace fst log emit app].
  destruct (get_quectel_ports (by_id env)) as [|c0 cs] eqn:Hc;
    [now contradiction Hne|].
  cbn [outcome snd trace fst].
  set (c := run_until_return env (c0 :: cs) (schedule env) init_config).
  assert (Hi : idle env (c0 :: cs) c)
    by (apply run_until_return_inv;
        [intros; now apply idle_step | apply idle_init]).
  assert (Hd : caller_done c = true) by apply run_until_return_done.
  destruct Hi as (_ & _ & _ & Hq & Hmain).
  unfold caller_done in Hd. unfold returned.
  destruct (mpc c) as [| | | | | |[r|]]; try discriminate Hd;
    try contradiction.
  destruct Hmain as [Hl Hs]. simpl. rewrite Hl, Hs, Hq. repeat split.
Qed.

Lemma detect_at_port_without_answer_witness :
  outcome (detect_at_port env_silent) = Ok None
  /\ logs (trace (detect_at_port env_silent))
     = [LogDetecting; LogNoResponsive]
  /\ sleeps (trace (detect_at_port env_silent))
     = repeat 100%N (polls env_silent)
  /\ written_to qeng_cmd (trace (detect_at_port env_silent)) = [].
Proof.
  apply (detect_at_port_without_answer env_silent).
  - discriminate.
  - intros p _. reflexivity.
Defined.

(** ** One port that answers *)

Lemma text_eqb_eq (a b : text) : text_eqb a b = true -> a = b.
Proof.
  unfold text_eqb. now destruct (list_eq_dec N.eq_dec a b).
Qed.

Lemma env_one_responder_single : single_responder env_one_responder.
Proof.
  intros x y Hx Hy. unfold answers_ok in Hx, Hy. simpl in Hx, Hy.
  destruct (text_eqb x usb2) eqn:Ex; [|discriminate Hx].
  destruct (text_eqb y usb2) eqn:Ey; [|discriminate Hy].
  apply text_eqb_eq in Ex, Ey. congruence.
Qed.

(** X5. When at most one port answers OK to AT, the race between the threads
    cannot show: if [detect_at_port] returns a port, then the port whose
    signal it read, after the 200 ms wait, is the port it returns. *)
Theorem detect_at_port_reads_the_port_it_returns :
  forall (env : detect_env) (p : text),
    single_responder env ->
    detected env = Some p ->
    exists pre mid post,
      trace (detect_at_port env)
      = pre ++ ESleep 200%N :: mid
        ++ trace (get_signal_strength (Some p) (signal_reply env (Some p)))
        ++ post.
Proof.
  exact single_responder_reads_returned_port.
Qed.

Lemma detect_at_port_reads_the_port_it_returns_witness :
  detected env_one_responder = Some usb2
  /\ exists pre mid post,
       trace (detect_at_port env_one_responder)
       = pre ++ ESleep 200%N :: mid
         ++ trace (get_signal_strength (Some usb2)
                     (signal_reply env_one_responder (Some usb2)))
         ++ post.
Proof.
  split; [reflexivity|].
  apply (detect_at_port_reads_the_port_it_returns env_one_responder usb2).
  - exact env_one_responder_single.
  - reflexivity.
Defined.

(** X6. When at most one port answers OK to AT, [found_port[0]] is written
    with one value only: under every interleaving of the threads, also after
    the main thread has returned, any two values ever assigned to it are the
    same port. *)
Theorem found_port_holds_one_port_with_one_responder :
  forall (env : detect_env) (candidates : list text) (sched : list nat)
    (x y : text),
    single_responder env ->
    In x (stores (exec env candidates sched init_config)) ->
    In y (stores (exec env candidates sched init_config)) ->
    x = y.
Proof.
  exact single_responder_stores_one_port.
Qed.

Lemma found_port_holds_one_port_with_one_responder_witness :
  stores (exec env_one_responder [usb2; usb3] sched_second_overwrites
            init_config) = [usb2]
  /\ usb2 = usb2.
Proof.
  split; [reflexivity|].
  apply (found_port_holds_one_port_with_one_responder env_one_responder
           [usb2; usb3] sched_second_overwrites usb2 usb2).
  - exact env_one_responder_single.
  - vm_compute. now left.
  - vm_compute. now left.
Defined.

(** ** The flag is set before the port is stored *)

Lemma run_caller_alone (env : detect_env) (candidates : list text)
  (P : config -> Prop) :
  (forall c, P c -> P (caller_step env candidates c)) ->
  forall fuel c, P c -> P (run_caller env candidates fuel c).
Proof.
  intros Hstep fuel. induction fuel as [|f IH]; intros c Hc; simpl; auto.
Qed.

Lemma flag_without_port_step (env : detect_env) (candidates : list text)
  (c : config) :
  flag_without_port c -> flag_without_port (caller_step env candidates c).
Proof.
  unfold flag_without_port, caller_step. intros (Hf & Hp & Hpc).
  destruct (mpc c) as [k|n| | | | |[r|]] eqn:E; try contradiction.
  - destruct (nth_error candidates k); simpl; auto.
  - rewrite Hf. simpl. auto.
  - rewrite Hp. simpl. rewrite logs_app, Hpc. auto.
  - rewrite E. auto.
Qed.

(** X7. A modem that answers can be missed. [test_port] sets the flag before
    it stores the port, and the main thread tests the slot as soon as it sees
    the flag. Whatever the candidates and the time allowed, if the first
    candidate answers OK there is an interleaving, the thread of that
    candidate being suspended between the two assignments, in which
    [detect_at_port] logs that no port is responsive and returns [None]. *)
Theorem detect_at_port_can_miss_a_port_that_answers :
  forall (env : detect_env) (p : text) (rest : list text),
    get_quectel_ports (by_id env) = p :: rest ->
    answers_ok env p = true ->
    outcome (detect_at_port (with_schedule env sched_flag_before_store))
    = Ok None
    /\ logs (trace (detect_at_port (with_schedule env sched_flag_before_store)))
       = [LogDetecting; LogNoResponsive].
Proof.
  intros env p rest Hc Hans.
  unfold detect_at_port. cbn [with_schedule by_id schedule]. rewrite Hc.
  rewrite (bind_ok _ _ tt) by reflexivity.
  cbn [trace outcome fst snd log emit app logs]. cbv zeta.
  unfold answers_ok in Hans.
  set (env' := with_schedule env sched_flag_before_store).
  assert (H : flag_without_port
                (run_until_return env' (p :: rest) sched_flag_before_store
                   init_config)).
  { unfold sched_flag_before_store.
    cbn [run_until_return caller_done init_config mpc step caller_step
         nth_error set_mpc set_workers workers app found_flag found_port
         stores events test_port w_port w_pc set_nth add_events].
    cbn [env' with_schedule at_reply].
    destruct (at_reply env p) as [| | |resp]; try discriminate Hans.
    unfold at_probe. cbn [ser_write ser_read bind emit ret fst snd].
    rewrite Hans.
    cbn [run_until_return caller_done init_config mpc step caller_step
         nth_error set_mpc set_workers workers app found_flag found_port
         stores events test_port w_port w_pc set_nth add_events set_flag].
    apply run_caller_alone; [apply flag_without_port_step|].
    repeat split. }
  pose proof (run_until_return_done env' (p :: rest) sched_flag_before_store
                init_config) as Hd.
  destruct H as (_ & _ & H). unfold caller_done in Hd. unfold returned.
  destruct (mpc (run_until_return env' (p :: rest) sched_flag_before_store
                   init_config)) as [k|n| | | | |[r|]];
    try discriminate Hd; try contradiction.
  split; [reflexivity|]. now rewrite H.
Qed.

Lemma detect_at_port_can_miss_a_port_that_answers_witness :
  outcome (detect_at_port
             (with_schedule (env_two_ports []) sched_flag_before_store))
  = Ok None
  /\ logs (trace (detect_at_port
                    (with_schedule (env_two_ports [])
                       sched_flag_before_store)))
     = [LogDetecting; LogNoResponsive].
Proof.
  apply (detect_at_port_can_miss_a_port_that_answers (env_two_ports [])
           usb2 [usb3]); reflexivity.
Defined.

(** ** The connectivity check, further *)

Lemma check_loop_cons (dns_ok ping_ok : bool) (k : check_type)
  (t : list event) (o : result bool) (rest : list future) :
  check_loop dns_ok ping_ok ((k, (t, o)) :: rest)
  = match o with
    | Raise e =>
        (t ++ ELog (LogCheckError e)
           :: trace (check_loop dns_ok ping_ok rest),
         outcome (check_loop dns_ok ping_ok rest))
    | Ok result =>
        let dns_ok' := if is_dns k && result then true else dns_ok in
        let ping_ok' := if is_ping k && result then true else ping_ok in
        if dns_ok' && ping_ok' then
          (t ++ ELog LogCheckSuccess
             :: flat_map (fun f => fst (snd f)) rest,
           Ok (Some true))
        else
          (t ++ trace (check_loop dns_ok' ping_ok' rest),
           outcome (check_loop dns_ok' ping_ok' rest))
    end.
Proof.
  cbn [check_loop].
  rewrite (bind_ok _ _ tt) by now rewrite emit_all_run.
  rewrite emit_all_run. cbn [trace outcome fst snd].
  destruct o as [result|e].
  - cbv zeta.
    destruct ((if is_dns k && result then true else dns_ok)
              && (if is_ping k && result then true else ping_ok)).
    + rewrite (bind_ok _ _ tt) by reflexivity.
      rewrite (bind_ok _ _ tt) by now rewrite emit_all_run.
      rewrite emit_all_run. cbn [trace outcome fst snd log emit ret app].
      now rewrite app_nil_r.
    + reflexivity.
  - rewrite (bind_ok _ _ tt) by reflexivity. reflexivity.
Qed.

(** Every event of every task is in the trace of the loop, whether the loop
    returns early or not. *)
Lemma check_loop_covers (completed : list future) :
  forall dns_ok ping_ok f e,
    In f completed -> In e (fst (snd f)) ->
    In e (trace (check_loop dns_ok ping_ok completed)).
Proof.
  induction completed as [|[k [t o]] rest IH]; intros d p f e Hf He;
    [contradiction|].
  rewrite check_loop_cons.
  destruct Hf as [<- | Hf].
  - cbn [fst snd] in He.
    destruct o as [result|x]; cbv zeta;
      [match goal with
       | |- context [if ?b then _ else _] => destruct b
       end|];
      cbn [trace fst]; apply in_or_app; now left.
  - destruct o as [result|x]; cbv zeta;
      [match goal with
       | |- context [if ?b then _ else _] => destruct b
       end|];
      cbn [trace fst]; apply in_or_app; right.
    + right. apply in_flat_map. now exists f.
    + now apply (IH _ _ f).
    + right. now apply (IH _ _ f).
Qed.

Lemma check_connectivity_covers (env : check_env) (f : future) (e : event) :
  In f (submitted env) -> In e (fst (snd f)) ->
  In e (trace (check_connectivity_parallel env)).
Proof.
  intros Hf He. unfold check_connectivity_parallel.
  rewrite (bind_ok _ _ tt) by reflexivity. cbn [trace fst log emit app].
  right.
  assert (Hin : In e (trace (check_loop false false
                   (as_completed (finish_time env) (submitted env))))).
  { apply (check_loop_covers _ _ _ f); [|exact He].
    eapply Permutation_in; [|exact Hf].
    apply Permutation_sym, as_completed_perm. }
  destruct (check_loop false false
              (as_completed (finish_time env) (submitted env)))
    as [t [[v|]|x]]; cbn [trace fst] in Hin |- *; simpl;
    rewrite ?app_nil_r; try exact Hin.
  apply in_or_app. now left.
Qed.

(** X8. [check_connectivity_parallel] always runs all five checks: whatever
    the hosts answer and in whatever order the tasks complete, also when it
    returns [True] as soon as one DNS host and one ping host have succeeded,
    every DNS host has been resolved and every ping host has been pinged by
    the time it returns. *)
Theorem check_connectivity_checks_every_host :
  forall env : check_env,
    Forall (fun h => In (EResolve h) (trace (check_connectivity_parallel env)))
      DNS_HOSTS
    /\ Forall (fun h => In (EExec (ping_argv h))
                          (trace (check_connectivity_parallel env)))
         PING_HOSTS.
Proof.
  intros env. split; apply Forall_forall; intros h Hh.
  - apply (check_connectivity_covers env
             (Dns, check_dns_host h (dns_of env h))).
    + unfold submitted. apply in_or_app. left.
      apply in_map_iff. now exists h.
    + cbn [fst snd]. destruct (dns_of env h) as [| |x];
        try (now left). destruct x; now left.
  - apply (check_connectivity_covers env
             (Ping, check_ping_host h (ping_of env h))).
    + unfold submitted. apply in_or_app. right.
      apply in_map_iff. now exists h.
    + cbn [fst snd]. destruct (ping_of env h) as [rc|x]; [|now left].
      unfold check_ping_host, run_ping. simpl.
      destruct (rc =? 0)%Z; now left.
Qed.

Lemma verdicts_app (t u : list event) :
  verdicts (t ++ u) = verdicts t ++ verdicts u.
Proof.
  unfold verdicts. now rewrite logs_app, filter_app.
Qed.

Lemma submitted_no_verdict (env : check_env) :
  Forall (fun f => verdicts (fst (snd f)) = []) (submitted env).
Proof.
  unfold submitted. apply Forall_app. split; apply Forall_map, Forall_forall;
    intros h _; cbn [fst snd].
  - destruct (dns_of env h) as [| |e]; try reflexivity. now destruct e.
  - destruct (ping_of env h) as [rc|e]; [|reflexivity].
    unfold check_ping_host, run_ping. simpl. now destruct (rc =? 0)%Z.
Qed.

Lemma flat_map_no_verdict (l : list future) :
  Forall (fun f => verdicts (fst (snd f)) = []) l ->
  verdicts (flat_map (fun f => fst (snd f)) l) = [].
Proof.
  induction 1 as [|f l Hf Hl IH]; [reflexivity|].
  cbn [flat_map]. now rewrite verdicts_app, Hf, IH.
Qed.

Lemma check_loop_verdicts (completed : list future) :
  Forall (fun f => verdicts (fst (snd f)) = []) completed ->
  forall dns_ok ping_ok,
    dns_ok && ping_ok = false ->
    verdicts (trace (check_loop dns_ok ping_ok completed))
    = if (dns_ok || existsb (succeeded Dns) completed)
         && (ping_ok || existsb (succeeded Ping) completed)
      then [LogCheckSuccess] else [].
Proof.
  induction 1 as [|[k [t o]] rest Ht Hrest IH]; intros d p Hdp.
  - simpl. rewrite !orb_false_r, Hdp. reflexivity.
  - rewrite check_loop_cons. cbn [fst snd] in Ht. unfold trace in *.
    destruct o as [result|e]; cbv zeta.
    + destruct k, result, d, p; try discriminate Hdp;
        cbn [is_dns is_ping andb orb existsb succeeded fst];
        rewrite ?verdicts_app, ?Ht; cbn [app];
        try (rewrite IH by reflexivity; cbn [orb andb]; reflexivity);
        change (ELog LogCheckSuccess
                  :: flat_map (fun f => fst (snd f)) rest)
          with ([ELog LogCheckSuccess]
                  ++ flat_map (fun f => fst (snd f)) rest);
        rewrite verdicts_app, (flat_map_no_verdict rest Hrest);
        reflexivity.
    + cbn [fst].
      change (ELog (LogCheckError e) :: fst (check_loop d p rest))
        with ([ELog (LogCheckError e)] ++ fst (check_loop d p rest)).
      rewrite !verdicts_app, Ht, IH by exact Hdp.
      destruct k; cbn [existsb succeeded]; rewrite !orb_false_l; reflexivity.
Qed.

(** X9. Every call of [check_connectivity_parallel] logs exactly one verdict,
    and the verdict is the value returned: the success line when it returns
    [True], the failure line when it returns [False]. *)
Theorem check_connectivity_logs_its_verdict :
  forall env : check_env,
    verdicts (trace (check_connectivity_parallel env))
    = [if connected env then LogCheckSuccess else LogCheckFailed].
Proof.
  intros env. unfold connected. rewrite check_connectivity_outcome.
  unfold check_connectivity_parallel.
  rewrite (bind_ok _ _ tt) by reflexivity.
  assert (Hp : Forall (fun f => verdicts (fst (snd f)) = [])
                 (as_completed (finish_time env) (submitted env)))
    by (eapply Permutation_Forall;
        [apply Permutation_sym, as_completed_perm
        | apply submitted_no_verdict]).
  pose proof (check_loop_verdicts _ Hp false false eq_refl) as Hv.
  pose proof (check_loop_outcome
                (as_completed (finish_time env) (submitted env))
                false false eq_refl) as Ho.
  rewrite !orb_false_l in Hv, Ho.
  rewrite !(existsb_perm _ _ _ (as_completed_perm _ _)) in Hv, Ho.
  rewrite (bind_ok _ _ _ Ho).
  destruct (existsb (succeeded Dns) (submitted env)
            && existsb (succeeded Ping) (submitted env));
    cbn [trace fst snd outcome log emit ret bind];
    rewrite !verdicts_app, Hv; reflexivity.
Qed.

(** X10. The value that [check_connectivity_parallel] returns does not depend
    on the order in which the tasks complete. *)
Theorem check_connectivity_ignores_completion_order :
  forall (env : check_env) (finish : nat -> nat),
    outcome (check_connectivity_parallel (with_finish_time env finish))
    = outcome (check_connectivity_parallel env).
Proof.
  intros env finish. now rewrite !check_connectivity_outcome.
Qed.

(** ** The service restart *)


(** ** The signal read, for every port and session *)

(** X12. Whatever the port argument and whatever the device does,
    [get_signal_strength] logs exactly one line, and it releases the port:
    a port that could be opened is closed again, whether the exchange ends
    well, in a write or read error, or in a parse error; nothing is closed
    when the port is [None] or could not be opened. *)
Theorem get_signal_strength_logs_once_and_closes :
  forall (port : pyport) (io : serial_session),
    length (logs (trace (get_signal_strength port io))) = 1
    /\ opened (trace (get_signal_strength port io))
       = match port with Some p => [p] | None => [] end
    /\ closed (trace (get_signal_strength port io))
       = match port, io with
         | Some p, OpenFails => []
         | Some p, _ => [p]
         | None, _ => []
         end.
Proof.
  intros [p|] io; [|destruct io; repeat split].
  destruct io as [| | |resp]; try solve [repeat split].
  rewrite get_signal_strength_run. cbv zeta.
  destruct (signal_log (decode_ignore resp)); repeat split.
Qed.

(** ** The fail-safe, further *)

Lemma queried_outcome (at_port_dns : pyport) (io : serial_session) :
  outcome (query_carrier_dns at_port_dns io) = Ok (queried at_port_dns io).
Proof.
  unfold queried.
  destruct at_port_dns as [p|]; [|reflexivity].
  destruct io as [| | |resp]; reflexivity.
Qed.

Lemma resolv_conf_of_shape (dns_servers : list text) :
  outcome (choose_resolv_conf dns_servers) = Ok (resolv_conf_of dns_servers).
Proof.
  unfold resolv_conf_of. now destruct dns_servers.
Qed.

(** The events of [fail_safe], stretch by stretch. *)
Lemma trace_of {A} (m : M A) (t : list event) (r : result A) :
  m = (t, r) -> trace m = t.
Proof.
  now intros ->.
Qed.

Lemma fail_safe_trace (at_port : pyport) (env : failsafe_env) :
  trace (fail_safe at_port env)
  = [ELog LogEnterFailSafe; ELog LogStoppingServices; ERun stop_quectel_cmd;
     ERun stop_vpn_cmd; ESleep 2000%N; ELog (LogSwitchingPid at_port)]
    ++ trace (switch_profile at_port (fs_switch env))
    ++ [ELog LogWaitingReenumerate; ESleep 20000%N;
        ELog (LogRequestingDhcp IFACE_RNDIS); ERun pkill_dhclient_cmd;
        ERun dhclient_cmd; ESleep 10000%N; ELog LogQueryingDns]
    ++ trace (detect_at_port (fs_detect env))
    ++ trace (query_carrier_dns (detected (fs_detect env)) (fs_query env))
    ++ trace (choose_resolv_conf
                (queried (detected (fs_detect env)) (fs_query env)))
    ++ [ERun (tee_cmd (written_resolv_conf env))].
Proof.
  pose proof (queried_outcome (detected (fs_detect env)) (fs_query env))
    as Hq.
  pose proof (resolv_conf_of_shape
                (queried (detected (fs_detect env)) (fs_query env))) as Hc.
  apply trace_of with (r := Raise (fail_safe_error env)). etransitivity.
  - unfold fail_safe.
    apply bind_emit_eq.
    do 5 seq_unit.
    seq_with (switch_profile_returns at_port (fs_switch env)).
    do 7 seq_unit.
    seq_with (detect_at_port_returns (fs_detect env)).
    seq_with Hq. seq_with Hc.
    apply fail_safe_tail.
  - f_equal.
Qed.

Lemma detect_at_port_runs (env : detect_env) :
  runs (trace (detect_at_port env)) = [].
Proof.
  apply serial_only_runs. apply (detect_at_port_within env).
Qed.

Lemma switch_profile_runs (at_port : pyport) (io : serial_session) :
  runs (trace (switch_profile at_port io)) = [].
Proof.
  destruct at_port as [p|], io; reflexivity.
Qed.

Lemma query_carrier_dns_runs (at_port_dns : pyport) (io : serial_session) :
  runs (trace (query_carrier_dns at_port_dns io)) = [].
Proof.
  destruct at_port_dns as [p|], io; reflexivity.
Qed.

Lemma choose_resolv_conf_runs (dns_servers : list text) :
  runs (trace (choose_resolv_conf dns_servers)) = [].
Proof.
  now destruct dns_servers.
Qed.

Lemma fail_safe_runs (at_port : pyport) (env : failsafe_env) :
  runs (trace (fail_safe at_port env))
  = [stop_quectel_cmd; stop_vpn_cmd; pkill_dhclient_cmd; dhclient_cmd;
     tee_cmd (written_resolv_conf env)].
Proof.
  rewrite fail_safe_trace, !runs_app, switch_profile_runs,
    query_carrier_dns_runs, choose_resolv_conf_runs.
  rewrite detect_at_port_runs. reflexivity.
Qed.

(** X13. The shell commands of [fail_safe] are the same in every run: it stops
    the Quectel service and the VPN service, kills the stale DHCP client,
    requests a lease on [usb0] and writes [resolv.conf], whatever the serial
    port and the threads of the detection do. It never runs the command that
    starts the VPN service again, which stands after the failing call of
    [netdiag_log]: a run of [fail_safe] leaves both services stopped. *)
Theorem fail_safe_commands :
  forall (at_port : pyport) (env : failsafe_env),
    runs (trace (fail_safe at_port env))
    = [stop_quectel_cmd; stop_vpn_cmd; pkill_dhclient_cmd; dhclient_cmd;
       tee_cmd (written_resolv_conf env)]
    /\ ~ In start_vpn_cmd (runs (trace (fail_safe at_port env))).
Proof.
  intros at_port env. split; [apply fail_safe_runs|].
  rewrite fail_safe_runs. unfold tee_cmd.
  intros [E | [E | [E | [E | [E | []]]]]]; discriminate E.
Qed.

(** X15. When the DNS query of [fail_safe] gets no reply, because the detection
    after the profile switch returned no port or because the serial port
    fails, [fail_safe] logs the failure of the query and falls back to the
    fixed DNS pair. *)
Theorem fail_safe_falls_back_without_reply :
  forall (at_port : pyport) (env : failsafe_env),
    query_fails env = true ->
    written_resolv_conf env = fallback_resolv_conf
    /\ In (ELog LogFallbackDns) (trace (fail_safe at_port env))
    /\ exists e, In (ELog (LogDnsQueryFailed e)) (trace (fail_safe at_port env)).
Proof.
  intros at_port env Hf. unfold query_fails in Hf.
  assert (Hq : queried (detected (fs_detect env)) (fs_query env) = []
               /\ exists e,
                    In (ELog (LogDnsQueryFailed e))
                      (trace (query_carrier_dns (detected (fs_detect env))
                                (fs_query env)))).
  { destruct (detected (fs_detect env)) as [p|], (fs_query env);
      try discriminate Hf; (split; [reflexivity|]); eexists; simpl; eauto 10. }
  destruct Hq as [Hq [e He]].
  unfold written_resolv_conf. rewrite fail_safe_trace, Hq.
  split; [reflexivity|]. split.
  - do 5 (apply in_or_app; right). apply in_or_app. left. now left.
  - exists e. do 4 (apply in_or_app; right). apply in_or_app. now left.
Qed.

Lemma fail_safe_falls_back_without_reply_witness :
  written_resolv_conf env_modem_gone = fallback_resolv_conf
  /\ In (ELog LogFallbackDns) (trace (fail_safe (Some usb2) env_modem_gone))
  /\ exists e,
       In (ELog (LogDnsQueryFailed e))
         (trace (fail_safe (Some usb2) env_modem_gone)).
Proof.
  apply (fail_safe_falls_back_without_reply (Some usb2) env_modem_gone).
  reflexivity.
Defined.

(** ** The course of a run of [main] *)

Lemma phases_app (t u : list event) : phases (t ++ u) = phases t ++ phases u.
Proof.
  unfold phases. now rewrite logs_app, filter_app.
Qed.

Lemma probe_event_phases (t : list event) :
  forallb probe_event t = true -> phases t = [] /\ runs t = [].
Proof.
  induction t as [|e t IH]; [now split|].
  simpl. intros H. apply andb_true_iff in H as [He Ht].
  destruct (IH Ht) as [Hp Hr].
  destruct e; try discriminate He; simpl in *; try (now split).
  unfold phases, phase_line in *. simpl. rewrite He. now split.
Qed.

Lemma get_signal_strength_probe (port : pyport) (io : serial_session) :
  forallb probe_event (trace (get_signal_strength port io)) = true.
Proof.
  destruct port as [p|]; [|reflexivity].
  destruct io as [| | |resp]; try reflexivity.
  rewrite get_signal_strength_run. cbv zeta.
  pose proof (signal_log_kind (decode_ignore resp)) as Hk.
  destruct (signal_log (decode_ignore resp)); try contradiction; reflexivity.
Qed.

Lemma test_port_probe (env : detect_env) (port : text) (pc : worker_pc)
  (c : config) :
  forallb probe_event (events c) = true ->
  forallb probe_event (events (fst (test_port env port pc c))) = true.
Proof.
  intros H. destruct pc; simpl; try exact H;
    try (rewrite forallb_app, H; reflexivity).
  - now destruct (found_flag c).
  - destruct (at_reply env port) as [| | |resp]; simpl;
      try (rewrite forallb_app, H; reflexivity).
    destruct (bytes_contains _ resp); simpl; rewrite forallb_app, H; reflexivity.
  - destruct (found_flag c); simpl; [|exact H].
    rewrite forallb_app, H; reflexivity.
Qed.

Lemma step_probe (env : detect_env) (candidates : list text) (c : config)
  (tid : nat) :
  forallb probe_event (events c) = true ->
  forallb probe_event (events (step env candidates tid c)) = true.
Proof.
  intros H. destruct tid as [|i]; simpl.
  - unfold caller_step. destruct (mpc c) as [k|n| | | | |r]; simpl;
      try exact H; try (rewrite forallb_app, H; reflexivity).
    + now destruct (nth_error candidates k).
    + destruct (found_flag c); [exact H|].
      destruct n; simpl; [exact H|]. rewrite forallb_app, H; reflexivity.
    + destruct (truthy (found_port c)); simpl; [exact H|].
      rewrite forallb_app, H; reflexivity.
    + rewrite forallb_app, H. apply get_signal_strength_probe.
  - destruct (nth_error (workers c) i) as [w|]; [|exact H].
    pose proof (test_port_probe env (w_port w) (w_pc w) c H) as Hw.
    destruct (test_port env (w_port w) (w_pc w) c) as [c' pc'].
    exact Hw.
Qed.

(** A detection logs its first line once, at its start. *)
Lemma detect_at_port_probe (env : detect_env) :
  exists t,
    trace (detect_at_port env) = ELog LogDetecting :: t
    /\ forallb probe_event t = true.
Proof.
  unfold detect_at_port.
  rewrite (bind_ok _ _ tt) by reflexivity. cbn [trace fst log emit app].
  destruct (get_quectel_ports (by_id env)) as [|c0 cs].
  - eexists. split; reflexivity.
  - eexists. split; [reflexivity|]. cbn [trace fst].
    apply (run_until_return_inv env (c0 :: cs)
             (fun c => forallb probe_event (events c) = true));
      [intros; now apply step_probe | reflexivity].
Qed.

Lemma detect_at_port_phases (env : detect_env) :
  phases (trace (detect_at_port env)) = [LogDetecting].
Proof.
  destruct (detect_at_port_probe env) as (t & -> & Ht).
  change (ELog LogDetecting :: t) with ([ELog LogDetecting] ++ t).
  rewrite phases_app, (proj1 (probe_event_phases t Ht)). reflexivity.
Qed.

Lemma check_loop_probe (completed : list future) :
  Forall (fun f => forallb probe_event (fst (snd f)) = true) completed ->
  forall dns_ok ping_ok,
    forallb probe_event (trace (check_loop dns_ok ping_ok completed)) = true.
Proof.
  induction 1 as [|[k [t o]] rest Ht Hrest IH]; intros d p; [reflexivity|].
  rewrite check_loop_cons. cbn [fst snd] in Ht. unfold trace in *.
  destruct o as [result|e]; cbv zeta.
  - match goal with
    | |- context [if ?b then _ else _] => destruct b
    end; cbn [fst]; rewrite forallb_app, Ht; [|apply IH].
    cbn [forallb probe_event sub_line andb].
    clear -Hrest. induction Hrest as [|f l Hf Hl IHl]; [reflexivity|].
    cbn [flat_map]. now rewrite forallb_app, Hf, IHl.
  - cbn [fst]. rewrite forallb_app, Ht.
    cbn [forallb probe_event sub_line andb]. apply IH.
Qed.

Lemma submitted_probe (env : check_env) :
  Forall (fun f => forallb probe_event (fst (snd f)) = true) (submitted env).
Proof.
  unfold submitted. apply Forall_app. split; apply Forall_map, Forall_forall;
    intros h _; cbn [fst snd].
  - destruct (dns_of env h) as [| |e]; try reflexivity. now destruct e.
  - destruct (ping_of env h) as [rc|e]; [|reflexivity].
    unfold check_ping_host, run_ping. simpl. now destruct (rc =? 0)%Z.
Qed.

Lemma check_connectivity_probe (env : check_env) :
  forallb probe_event (trace (check_connectivity_parallel env)) = true.
Proof.
  unfold check_connectivity_parallel.
  rewrite (bind_ok _ _ tt) by reflexivity. cbn [trace fst log emit app].
  assert (Hq : forallb probe_event
                 (trace (check_loop false false
                    (as_completed (finish_time env) (submitted env)))) = true).
  { apply check_loop_probe.
    eapply Permutation_Forall;
      [apply Permutation_sym, as_completed_perm | apply submitted_probe]. }
  destruct (check_loop false false
              (as_completed (finish_time env) (submitted env)))
    as [t [[[]|]|e]]; cbn [trace fst] in Hq |- *; simpl;
    rewrite ?forallb_app, ?app_nil_r, ?Hq; try exact Hq; reflexivity.
Qed.

Lemma restart_connection_phases (env : restart_env) :
  phases (trace (restart_connection env)) = [].
Proof.
  destruct env as [[] [] []]; reflexivity.
Qed.

Lemma netdiag_log_logs (interface : text) (env : netdiag_env) :
  logs (trace (netdiag_log interface env)) = [].
Proof.
  netdiag_cases env; reflexivity.
Qed.

Lemma netdiag_log_phases (interface : text) (env : netdiag_env) :
  phases (trace (netdiag_log interface env)) = [].
Proof.
  unfold phases. now rewrite netdiag_log_logs.
Qed.

Lemma fail_safe_phases (at_port : pyport) (env : failsafe_env) :
  phases (trace (fail_safe at_port env)) = [LogEnterFailSafe; LogDetecting].
Proof.
  rewrite fail_safe_trace, !phases_app, detect_at_port_phases.
  assert (Hs : phases (trace (switch_profile at_port (fs_switch env))) = [])
    by (destruct at_port as [p|], (fs_switch env); reflexivity).
  assert (Hq : phases (trace (query_carrier_dns (detected (fs_detect env))
                                (fs_query env))) = [])
    by (destruct (detected (fs_detect env)) as [p|], (fs_query env);
        reflexivity).
  assert (Hc : phases (trace (choose_resolv_conf
                 (queried (detected (fs_detect env)) (fs_query env)))) = [])
    by (now destruct (queried (detected (fs_detect env)) (fs_query env))).
  rewrite Hs, Hq, Hc. reflexivity.
Qed.

(** The events of a run of [main], stretch by stretch. *)
Lemma main_trace (w : world) :
  trace (main w)
  = [ELog LogBanner; ELog LogStarting]
    ++ trace (detect_at_port (w_detect0 w))
    ++ trace (check_connectivity_parallel (w_check0 w))
    ++ if connected (w_check0 w) then [ELog LogSystemOnline]
       else [ELog LogConnectivityMissing]
            ++ trace (netdiag_log (txt "wwan0") (w_gateway0 w))
            ++ if append_fails (w_gateway0 w) then []
               else trace (restart_connection (w_restart w))
                    ++ trace (check_connectivity_parallel (w_check1 w))
                    ++ if connected (w_check1 w)
                       then [ELog LogRestoredAfterRestart]
                       else trace (detect_at_port (w_detect1 w))
                            ++ if truthy (detected (w_detect1 w))
                               then trace (fail_safe (detected (w_detect1 w))
                                             (w_failsafe w))
                               else trace (netdiag_log (txt "usb0")
                                             (w_gateway1 w))
                                    ++ if append_fails (w_gateway1 w) then []
                                       else [ELog LogNoAtPort;
                                             ELog LogRebooting].
Proof.
  rewrite main_run, main_after_detect_run. cbv zeta.
  unfold soft_restart_trace.
  destruct (connected (w_check0 w)); [reflexivity|].
  destruct (append_fails (w_gateway0 w)).
  { cbn [trace fst app call_netdiag_log]. now rewrite app_nil_r. }
  destruct (connected (w_check1 w));
    [|destruct (truthy (detected (w_detect1 w)));
      [|destruct (append_fails (w_gateway1 w))]];
    cbn [trace fst app call_netdiag_log]; rewrite <- ?app_assoc;
    rewrite ?app_nil_r; reflexivity.
Qed.

Lemma main_phases (w : world) : phases (trace (main w)) = course w.
Proof.
  rewrite main_trace. unfold course.
  rewrite !phases_app, detect_at_port_phases,
    (proj1 (probe_event_phases _ (check_connectivity_probe (w_check0 w)))).
  destruct (connected (w_check0 w)); [reflexivity|].
  rewrite !phases_app, netdiag_log_phases.
  destruct (append_fails (w_gateway0 w)); [reflexivity|].
  rewrite !phases_app, restart_connection_phases,
    (proj1 (probe_event_phases _ (check_connectivity_probe (w_check1 w)))).
  destruct (connected (w_check1 w)); [reflexivity|].
  rewrite phases_app, detect_at_port_phases.
  destruct (truthy (detected (w_detect1 w))).
  - rewrite fail_safe_phases. reflexivity.
  - rewrite phases_app, netdiag_log_phases.
    now destruct (append_fails (w_gateway1 w)).
Qed.

Lemma main_outcome (w : world) : outcome (main w) = ending w.
Proof.
  rewrite main_run, main_after_detect_run. cbv zeta. unfold ending.
  destruct (connected (w_check0 w)); [reflexivity|].
  destruct (append_fails (w_gateway0 w)); [reflexivity|].
  destruct (connected (w_check1 w)); [reflexivity|].
  destruct (truthy (detected (w_detect1 w))); [reflexivity|].
  now destruct (append_fails (w_gateway1 w)).
Qed.

(** X16. The course of every run of [main] is one of six, and the two
    connectivity checks, the detection of the fail-safe tier and the two
    writes of the diagnostics file decide which: online at once; restored by
    the service restart; fail-safe entered (the run ends in it, after its
    own detection, with the exception of C1); no port, and the reboot
    logged; and the two in which the diagnostics file cannot be written,
    where the [OSError] ends the run right after the dump of [wwan0],
    before the restart, or right after the dump of [usb0], before the lines
    on the missing port and the reboot. In the log of the run, the lines of
    [main] itself and the first lines of [detect_at_port] and [fail_safe]
    are exactly those of that course, in that order, and the run returns or
    ends in the exception of its course. *)
Theorem main_takes_one_of_six_courses :
  forall w : world,
    phases (trace (main w)) = course w /\ outcome (main w) = ending w.
Proof.
  intros w. split; [apply main_phases | apply main_outcome].
Qed.

Lemma phases_in (m : log_msg) (t : list event) :
  phase_line m = true -> In (ELog m) t -> In m (phases t).
Proof.
  intros Hm Hin. unfold phases. apply filter_In. split; [|exact Hm].
  induction t as [|e t IH]; [destruct Hin|].
  destruct Hin as [-> | Hin]; [now left|].
  destruct e; simpl; auto.
Qed.

(** X17. The third connectivity check of [main], the one after [fail_safe],
    is never reached, since [fail_safe] does not return: a run of [main] is
    the same whatever that check would answer, and no run logs that the
    link was restored with the fail-safe. *)
Theorem main_never_reaches_third_check :
  forall (w : world) (env : check_env),
    main (with_check2 w env) = main w
    /\ ~ In (ELog LogRestoredWithFailSafe) (trace (main w)).
Proof.
  intros w env. split.
  - rewrite !main_run, !main_after_detect_run. reflexivity.
  - intros Hin. apply (phases_in LogRestoredWithFailSafe) in Hin;
      [|reflexivity].
    rewrite main_phases in Hin. unfold course in Hin.
    destruct (connected (w_check0 w)), (append_fails (w_gateway0 w)),
      (connected (w_check1 w)), (truthy (detected (w_detect1 w))),
      (append_fails (w_gateway1 w)); simpl in Hin;
      repeat (destruct Hin as [Hin | Hin]; [discriminate Hin|]);
      exact Hin.
Qed.

(** ** The commands of a run of [main] *)

Lemma restart_connection_runs (env : restart_env) :
  runs (trace (restart_connection env))
  = [usb_modeswitch_cmd; restart_quectel_cmd; restart_vpn_cmd].
Proof.
  destruct env as [[] [] []]; reflexivity.
Qed.

Lemma check_connectivity_runs (env : check_env) :
  runs (trace (check_connectivity_parallel env)) = [].
Proof.
  apply probe_event_phases, check_connectivity_probe.
Qed.

Lemma netdiag_log_no_reboot (interface : text) (env : netdiag_env) :
  ~ In reboot_cmd (runs (trace (netdiag_log interface env))).
Proof.
  netdiag_cases env; simpl; intros H;
    repeat (destruct H as [H | H]; [discriminate H|]); exact H.
Qed.

Lemma main_runs (w : world) : runs (trace (main w)) = commands w.
Proof.
  rewrite main_trace. unfold commands.
  rewrite !runs_app, detect_at_port_runs, check_connectivity_runs.
  destruct (connected (w_check0 w)); [reflexivity|].
  rewrite !runs_app. cbn [runs app]. f_equal.
  destruct (append_fails (w_gateway0 w)); [reflexivity|].
  rewrite !runs_app, restart_connection_runs, check_connectivity_runs.
  cbn [app]. do 3 f_equal.
  destruct (connected (w_check1 w)); [reflexivity|].
  rewrite runs_app, detect_at_port_runs.
  destruct (truthy (detected (w_detect1 w))).
  - apply fail_safe_runs.
  - rewrite runs_app. cbn [app].
    destruct (append_fails (w_gateway1 w)); cbn [runs]; apply app_nil_r.
Qed.

(** X18. The shell commands of a run of [main] follow from its course. A run
    that finds the link up runs none. Otherwise it runs the commands of the
    diagnostics of [wwan0] and, unless the diagnostics file cannot be
    written, the three commands of the restart; if the link is still down it
    then runs the five commands of the fail-safe, or, without a port, the
    commands of the diagnostics of [usb0]. The detections and the
    connectivity checks run no shell command, and no run reboots the system:
    the reboot is logged, not performed. *)
Theorem main_commands :
  forall w : world,
    runs (trace (main w)) = commands w
    /\ ~ In reboot_cmd (runs (trace (main w))).
Proof.
  intros w. split; [apply main_runs|].
  rewrite main_runs. unfold commands.
  destruct (connected (w_check0 w)); [intros []|].
  intros H. apply in_app_or in H as [H | H];
    [exact (netdiag_log_no_reboot _ _ H)|].
  destruct (append_fails (w_gateway0 w)); [exact H|].
  simpl in H.
  repeat (destruct H as [H | H]; [discriminate H|]).
  destruct (connected (w_check1 w)); [exact H|].
  destruct (truthy (detected (w_detect1 w))).
  - unfold tee_cmd in H. simpl in H.
    repeat (destruct H as [H | H]; [discriminate H|]). exact H.
  - exact (netdiag_log_no_reboot _ _ H).
Qed.
